(** * FHEZamaQuiz: the codec, the confidential store and the client hook

    A shallow embedding of three pieces of the repository:

    - [Codec]: [stringToBigInt] and [bigIntToString] of
      [packages/nextjs/utils/helper/encoding.ts];
    - [Store]: the Solidity contract [FHEZamaQuiz] ([submitAnswer],
      [hasAnswered], [getEncryptedAnswer]);
    - [Hook]: the React hook [useFHEZamaQuiz] ([hasAnswered], [submitAnswer]).

    Library and runtime functions the repository calls but does not define
    (ethers, Node's Buffer, the FHE Solidity library, the FHEVM SDK) are either
    modelled by their documented behaviour on the inputs the code feeds them,
    or taken as parameters. *)

From Stdlib Require Import ZArith NArith List String Ascii Lia.
From Stdlib Require Import Hexadecimal HexadecimalFacts HexadecimalN HexadecimalString.
From stdpp Require Import base gmap strings.

Local Open Scope string_scope.

(** ** JavaScript results: a value, or a thrown exception *)

Inductive Outcome (A : Type) : Type :=
| Returns (a : A)
| Throws (name : string) (msg : string).
Arguments Returns {A} a.
Arguments Throws {A} name msg.

(** ** The codec: [encoding.ts] *)

Module Codec.

(** A text is represented by its canonical UTF-8 byte sequence: a [string] of
    the Standard Library is a sequence of bytes.  [toUtf8Bytes] of ethers then
    lists these bytes, and [Buffer#toString("utf8")] of Node reads them back.
    The texts of the model are those that have such a byte sequence.  A
    JavaScript string with a lone surrogate has none: on it [toUtf8Bytes]
    throws a TypeError, and no value of the model stands for it, so nothing
    proved here about every text speaks of such a string.  (Node replaces
    ill-formed byte sequences by U+FFFD.) *)
Definition toUtf8Bytes (str : string) : list Byte.byte :=
  list_byte_of_string str.

Definition toString_utf8 (buf : list Byte.byte) : string :=
  string_of_list_byte buf.

(** One hexadecimal digit, lower case, of a value below 16. *)
Definition hexChar (d : N) : ascii :=
  match d with
  | 0 => "0" | 1 => "1" | 2 => "2" | 3 => "3" | 4 => "4" | 5 => "5"
  | 6 => "6" | 7 => "7" | 8 => "8" | 9 => "9" | 10 => "a" | 11 => "b"
  | 12 => "c" | 13 => "d" | 14 => "e" | _ => "f"
  end%N%char.

(** The value of a hexadecimal digit, read off its character code; Node's
    hex decoder takes both cases. *)
Definition hexVal (c : ascii) : option N :=
  let code := N_of_ascii c in
  if ((48 <=? code) && (code <=? 57))%N then Some (code - 48)%N        (* 0-9 *)
  else if ((97 <=? code) && (code <=? 102))%N then Some (code - 87)%N  (* a-f *)
  else if ((65 <=? code) && (code <=? 70))%N then Some (code - 55)%N   (* A-F *)
  else None.

Definition hexByte (b : Byte.byte) : string :=
  let n := Byte.to_N b in
  String (hexChar (n / 16)) (String (hexChar (n mod 16)) EmptyString).

Fixpoint hexBytes (bytes : list Byte.byte) : string :=
  match bytes with
  | nil => EmptyString
  | b :: rest => hexByte b ++ hexBytes rest
  end.

(** ethers' [hexlify]: ["0x"] then two lower-case digits per byte. *)
Definition hexlify (bytes : list Byte.byte) : string :=
  "0x" ++ hexBytes bytes.

(** [s.substring(start)]: the string from index [start] on. *)
Definition substring_from (start : nat) (s : string) : string :=
  substring start (String.length s - start) s.

(** [BigInt(s)] on a hexadecimal literal, the one form [stringToBigInt]
    builds: ["0x"] followed by lower-case digits, as [hexlify] writes them.
    No digit, or a character that is no digit, is a SyntaxError.  (Other
    literal forms, upper-case digits among them, are not modelled and never
    reach this function from the code.) *)
Definition BigInt (s : string) : Outcome Z :=
  match s with
  | String "0" (String "x" digits) =>
      match NilZero.uint_of_string digits with
      | Some d => Returns (Z.of_N (N.of_hex_uint d))
      | None => Throws "SyntaxError" ("Cannot convert " ++ s ++ " to a BigInt")
      end
  | _ => Throws "SyntaxError" ("Cannot convert " ++ s ++ " to a BigInt")
  end.

Definition stringToBigInt (str : string) : Outcome Z :=
  let bytes := toUtf8Bytes str in
  let hex := substring_from 2 (hexlify bytes) in
  BigInt ("0x" ++ hex).

(** [bn.toString(16)]: the shortest lower-case digits, ["0"] for zero, a
    leading ["-"] for a negative value. *)
Definition toString16 (bn : Z) : string :=
  match bn with
  | Zneg p => String "-" (NilZero.string_of_uint (N.to_hex_uint (Npos p)))
  | _ => NilZero.string_of_uint (N.to_hex_uint (Z.to_N bn))
  end.

(** [Buffer.from(hex, "hex")]: one byte per pair of digits; decoding stops at
    the first pair that is not two hexadecimal digits, and a last single
    character is dropped. *)
Fixpoint Buffer_from_hex (hex : string) : list Byte.byte :=
  match hex with
  | String c1 (String c2 rest) =>
      match hexVal c1, hexVal c2 with
      | Some h, Some l =>
          match Byte.of_N (16 * h + l) with
          | Some b => b :: Buffer_from_hex rest
          | None => nil
          end
      | _, _ => nil
      end
  | _ => nil
  end.

Definition bigIntToString (bn : Z) : string :=
  let hex := toString16 bn in
  let hex := if negb (Nat.eqb (Nat.modulo (String.length hex) 2) 0)
             then "0" ++ hex else hex in
  toString_utf8 (Buffer_from_hex hex).

(** [bigIntToString(stringToBigInt(str))]. *)
Definition roundTrip (str : string) : Outcome string :=
  match stringToBigInt str with
  | Returns bn => Returns (bigIntToString bn)
  | Throws name msg => Throws name msg
  end.

(** The number of bytes of the text in UTF-8. *)
Definition byteLength (str : string) : nat :=
  List.length (toUtf8Bytes str).

(** The text has a first byte, and it is not zero. *)
Definition firstByteNonZero (str : string) : bool :=
  match toUtf8Bytes str with
  | nil => false
  | b :: _ => negb (Byte.eqb b Byte.x00)
  end.

(** Every character of the text is a single byte in UTF-8 (below 0x80). *)
Definition singleByteChars (str : string) : bool :=
  forallb (fun b => N.ltb (Byte.to_N b) 128) (toUtf8Bytes str).

(** The unsigned integer a byte sequence denotes, most significant byte
    first. *)
Definition bigEndian (bytes : list Byte.byte) : N :=
  fold_left (fun acc b => 256 * acc + Byte.to_N b)%N bytes 0%N.

(** Hexadecimal digits as the Standard Library's [uint]: the digit of a value
    below 16 put in front of a number, and the two digits of a byte. *)
Definition digitOf (n : N) (d : uint) : uint :=
  match n with
  | 0 => D0 d | 1 => D1 d | 2 => D2 d | 3 => D3 d | 4 => D4 d | 5 => D5 d
  | 6 => D6 d | 7 => D7 d | 8 => D8 d | 9 => D9 d | 10 => Da d | 11 => Db d
  | 12 => Dc d | 13 => Dd d | 14 => De d | _ => Df d
  end%N.

Definition byteDigits (b : Byte.byte) (d : uint) : uint :=
  digitOf (Byte.to_N b / 16) (digitOf (Byte.to_N b mod 16) d).

Definition bytesDigits (bytes : list Byte.byte) : uint :=
  fold_right byteDigits Nil bytes.

(** The value of a digit sequence read from the left onto an accumulator. *)
Fixpoint hexAcc (d : uint) (acc : N) : N :=
  match d with
  | Nil => acc
  | D0 l => hexAcc l (16 * acc)
  | D1 l => hexAcc l (16 * acc + 1)
  | D2 l => hexAcc l (16 * acc + 2)
  | D3 l => hexAcc l (16 * acc + 3)
  | D4 l => hexAcc l (16 * acc + 4)
  | D5 l => hexAcc l (16 * acc + 5)
  | D6 l => hexAcc l (16 * acc + 6)
  | D7 l => hexAcc l (16 * acc + 7)
  | D8 l => hexAcc l (16 * acc + 8)
  | D9 l => hexAcc l (16 * acc + 9)
  | Da l => hexAcc l (16 * acc + 10)
  | Db l => hexAcc l (16 * acc + 11)
  | Dc l => hexAcc l (16 * acc + 12)
  | Dd l => hexAcc l (16 * acc + 13)
  | De l => hexAcc l (16 * acc + 14)
  | Df l => hexAcc l (16 * acc + 15)
  end%N.

(** The width of the store's ciphertext slot ([euint32]). *)
Definition W : nat := 32.

(** Strings of lower-case hexadecimal digits. *)
Fixpoint hexString (s : string) : Prop :=
  match s with
  | EmptyString => True
  | String c r => (exists n : N, (n < 16)%N /\ c = hexChar n) /\ hexString r
  end.

(** A byte sequence without its leading zero bytes; one zero byte is left of
    a sequence of zero bytes only. *)
Fixpoint stripZeroBytes (bytes : list Byte.byte) : list Byte.byte :=
  match bytes with
  | nil => nil
  | b :: rest =>
      if Byte.eqb b Byte.x00
      then match rest with
           | nil => bytes
           | _ :: _ => stripZeroBytes rest
           end
      else bytes
  end.

End Codec.

(** ** The confidential store: the contract [FHEZamaQuiz] *)

Module Store.

(** [address] is a 160-bit and [bytes32] a 256-bit unsigned value; [euint32]
    and [externalEuint32] are [bytes32] handles. *)
Abbreviation address := N (only parsing).
Abbreviation bytes32 := N (only parsing).
Abbreviation euint32 := N (only parsing).
Abbreviation externalEuint32 := N (only parsing).
Abbreviation bytes := (list Byte.byte) (only parsing).

(** The contract's storage, and the FHE access-control list its calls to
    [FHE.allow] and [FHE.allowThis] write: the pairs (handle, account)
    allowed to decrypt.  A mapping reads its zero value at a key never
    written. *)
Record State : Type := mkState {
  _userAnswer : gmap N N;
  _hasAnswered : gmap N bool;
  acl : gset (N * N)
}.

Definition init : State :=
  {| _userAnswer := ∅; _hasAnswered := ∅; acl := ∅ |}.

Inductive Error : Type :=
| Error_string (reason : string)   (* require(cond, reason) *)
| VerificationFailed.              (* a revert inside FHE.fromExternal *)

Inductive Result (A : Type) : Type :=
| Ok (a : A)
| Revert (e : Error).
Arguments Ok {A} a.
Arguments Revert {A} e.

(** Contract code runs in a state and either returns a value and a new state
    or reverts; a revert drops every write of the call. *)
Definition M (A : Type) : Type := State -> Result (A * State).

Definition ret {A} (a : A) : M A := fun s => Ok (a, s).

Definition bind {A B} (m : M A) (k : A -> M B) : M B :=
  fun s => match m s with
           | Ok (a, s') => k a s'
           | Revert e => Revert e
           end.

Notation "'do' x <- m ; k" := (bind m (fun x => k))
  (at level 10, x name, m at level 100, k at level 200).

Definition require (cond : bool) (reason : string) : M unit :=
  fun s => if cond then Ok (tt, s) else Revert (Error_string reason).

Definition read_userAnswer (a : address) : M euint32 :=
  fun s => Ok (default 0%N (_userAnswer s !! a), s).

Definition read_hasAnswered (a : address) : M bool :=
  fun s => Ok (default false (_hasAnswered s !! a), s).

Definition write_userAnswer (a : address) (v : euint32) : M unit :=
  fun s => Ok (tt, {| _userAnswer := <[a := v]> (_userAnswer s);
                      _hasAnswered := _hasAnswered s;
                      acl := acl s |}).

Definition write_hasAnswered (a : address) (v : bool) : M unit :=
  fun s => Ok (tt, {| _userAnswer := _userAnswer s;
                      _hasAnswered := <[a := v]> (_hasAnswered s);
                      acl := acl s |}).

(** The value a call returns in a state, if it returns. *)
Definition returns {A} (m : M A) (s : State) : option A :=
  match m s with
  | Ok (a, _) => Some a
  | Revert _ => None
  end.

Section Contract.

(** The address of the deployed contract. *)
Variable this : address.

(** [FHE.fromExternal] of the FHE Solidity library, which is no part of the
    repository: given the contract, the sender, the external handle and the
    proof, the verified handle, or [None] when the library reverts.  What the
    library notes for the length of the transaction only is left out. *)
Variable verify : address -> address -> externalEuint32 -> bytes -> option euint32.

Definition FHE_fromExternal (msg_sender : address)
    (inputHandle : externalEuint32) (inputProof : bytes) : M euint32 :=
  fun s => match verify this msg_sender inputHandle inputProof with
           | Some v => Ok (v, s)
           | None => Revert VerificationFailed
           end.

Definition FHE_allow (value : euint32) (account : address) : M unit :=
  fun s => Ok (tt, {| _userAnswer := _userAnswer s;
                      _hasAnswered := _hasAnswered s;
                      acl := {[ (value, account) ]} ∪ acl s |}).

Definition FHE_allowThis (value : euint32) : M unit :=
  FHE_allow value this.

Definition submitAnswer (msg_sender : address)
    (answerEncrypted : externalEuint32) (proof : bytes) : M unit :=
  do answered <- read_hasAnswered msg_sender;
  do _ <- require (negb answered) "Already answered";
  do value <- FHE_fromExternal msg_sender answerEncrypted proof;
  do _ <- write_userAnswer msg_sender value;
  do _ <- FHE_allow value msg_sender;
  do _ <- FHE_allowThis value;
  write_hasAnswered msg_sender true.

Definition hasAnswered (user : address) : M bool :=
  read_hasAnswered user.

Definition getEncryptedAnswer (user : address) : M euint32 :=
  read_userAnswer user.

(** The calls the contract accepts. *)
Inductive Call : Type :=
| CallSubmitAnswer (msg_sender : address) (answerEncrypted : externalEuint32)
    (proof : bytes)
| CallHasAnswered (user : address)
| CallGetEncryptedAnswer (user : address).

(** The state a call leaves: the writes of a call that returns, the state
    before it when it reverts. *)
Definition commit {A} (m : M A) (s : State) : State :=
  match m s with
  | Ok (_, s') => s'
  | Revert _ => s
  end.

Definition exec (s : State) (c : Call) : State :=
  match c with
  | CallSubmitAnswer u h p => commit (submitAnswer u h p) s
  | CallHasAnswered u => commit (hasAnswered u) s
  | CallGetEncryptedAnswer u => commit (getEncryptedAnswer u) s
  end.

Definition execs (s : State) (cs : list Call) : State :=
  fold_left exec cs s.

(** Among the calls [cs], run in order from [s], some [submitAnswer] of [u]
    returned: [u] has submitted. *)
Fixpoint submitted_in (s : State) (cs : list Call) (u : address) : Prop :=
  match cs with
  | nil => False
  | c :: rest =>
      (exists h p, c = CallSubmitAnswer u h p /\
                   returns (submitAnswer u h p) s = Some tt) \/
      submitted_in (exec s c) rest u
  end.

(** The number of [submitAnswer] calls of [u] among [cs], run in order from
    [s], that returned. *)
Fixpoint successes (s : State) (cs : list Call) (u : address) : nat :=
  match cs with
  | nil => 0
  | c :: rest =>
      match c with
      | CallSubmitAnswer w h p =>
          if N.eqb w u
          then match returns (submitAnswer w h p) s with
               | Some _ => 1
               | None => 0
               end
          else 0
      | _ => 0
      end + successes (exec s c) rest u
  end.

(** The states of a deployed contract: those a sequence of calls reaches from
    the initial one. *)
Definition reachable (s : State) : Prop :=
  exists cs, s = execs init cs.

End Contract.

(** The sentinel a never-written handle slot reads. *)
Definition zeroHandle : bytes32 := 0%N.

(** The record of every identity has its flag set exactly when its handle is
    present, that is, differs from the sentinel; read through the views. *)
Definition consistent (s : State) : Prop :=
  forall u : address,
    returns (hasAnswered u) s = Some true <->
    returns (getEncryptedAnswer u) s <> Some zeroHandle.

(** One half of it, read through the views: a present handle belongs to an
    identity whose flag is set. *)
Definition present_implies_submitted (s : State) : Prop :=
  forall u : address,
    returns (getEncryptedAnswer u) s <> Some zeroHandle ->
    returns (hasAnswered u) s = Some true.

(** What a set flag does tell about the handle: it is the value
    [FHE.fromExternal] returned for an input of that identity. *)
Definition stored_is_verified (this : address)
    (verify : address -> address -> externalEuint32 -> bytes -> option euint32)
    (s : State) : Prop :=
  forall u : address,
    returns (hasAnswered u) s = Some true ->
    exists (h : externalEuint32) (p : bytes),
      verify this u h p = returns (getEncryptedAnswer u) s.

(** A handle that differs from the sentinel belongs to an identity whose flag
    is set: nothing but a returning [submitAnswer] writes a handle. *)
Definition handle_implies_flag (s : State) : Prop :=
  forall u : address,
    default false (_hasAnswered s !! u) = false ->
    default 0%N (_userAnswer s !! u) = zeroHandle.

(** The list allows every identity whose flag is set, and the contract, to
    decrypt the handle stored for that identity. *)
Definition acl_covers (this : address) (s : State) : Prop :=
  forall u : address,
    default false (_hasAnswered s !! u) = true ->
    (default 0%N (_userAnswer s !! u), u) ∈ acl s /\
    (default 0%N (_userAnswer s !! u), this) ∈ acl s.

(** Every pair of the list is the handle stored for an identity whose flag is
    set, allowed to that identity or to the contract. *)
Definition acl_owned (this : address) (s : State) : Prop :=
  forall h a : N,
    (h, a) ∈ acl s ->
    exists u : address,
      default false (_hasAnswered s !! u) = true /\
      default 0%N (_userAnswer s !! u) = h /\
      (a = u \/ a = this).

(** A verifier for examples: it rejects an empty proof and the zero handle,
    and returns the external handle otherwise. *)
Definition sampleVerify (this msg_sender : address)
    (inputHandle : externalEuint32) (inputProof : bytes) : option euint32 :=
  match inputProof with
  | nil => None
  | _ :: _ => if N.eqb inputHandle 0 then None else Some inputHandle
  end.

(** A verifier that gives the zero handle for every input: the contract
    stores what the library returns and never compares it with the
    sentinel. *)
Definition zeroVerify (this msg_sender : address)
    (inputHandle : externalEuint32) (inputProof : bytes) : option euint32 :=
  Some zeroHandle.

(** A verifier whose handles name their sender: it rejects an empty proof, and
    the handle it returns for a sender is returned for no other sender. *)
Definition senderVerify (this msg_sender : address)
    (inputHandle : externalEuint32) (inputProof : bytes) : option euint32 :=
  match inputProof with
  | nil => None
  | _ :: _ => Some (256 * (msg_sender + 1) + inputHandle mod 256)%N
  end.

End Store.

(** ** The client hook: [useFHEZamaQuiz] *)

Module Hook.

(** A JavaScript string is falsy exactly when it is empty. *)
Definition truthy (s : string) : bool :=
  negb (String.eqb s "").

Fixpoint zeros (n : nat) : string :=
  match n with
  | O => EmptyString
  | S n' => String "0" (zeros n')
  end.

(** [s.padStart(n, "0")]. *)
Definition padStart0 (n : nat) (s : string) : string :=
  zeros (n - String.length s) ++ s.

(** [ethers.ZeroHash]: ["0x"] and 64 zeros. *)
Definition ZeroHash : string := "0x" ++ zeros 64.

(** The text a contract read returns for a [bytes32]: ["0x"] and its 64
    lower-case hexadecimal digits. *)
Definition bytes32ToHex (h : N) : string :=
  "0x" ++ padStart0 64 (Codec.toString16 (Z.of_N h)).

(** [answerHandle]: the data of the [getEncryptedAnswer] read, undefined
    until the read has returned. *)
Definition hasAnswered (answerHandle : option string) : bool :=
  match answerHandle with
  | None => false
  | Some h =>
      truthy h && negb (String.eqb h ZeroHash) && negb (String.eqb h "0x")
      && negb (String.eqb h "0x0")
  end.

(** The React state of the hook that [submitAnswer] writes, with the data of
    the contract read. *)
Record HookState : Type := mkHookState {
  message : string;
  isProcessing : bool;
  encryptedAnswer : option string
}.

Definition setMessage (m : string) (st : HookState) : HookState :=
  {| message := m; isProcessing := isProcessing st;
     encryptedAnswer := encryptedAnswer st |}.

Definition setIsProcessing (b : bool) (st : HookState) : HookState :=
  {| message := message st; isProcessing := b;
     encryptedAnswer := encryptedAnswer st |}.

Definition setEncryptedAnswer (d : option string) (st : HookState) : HookState :=
  {| message := message st; isProcessing := isProcessing st;
     encryptedAnswer := d |}.

(** What [submitAnswer] does outside the hook's state, in the order done. *)
Inductive Event : Type :=
| EvEncode (text : string)              (* stringToBigInt(text) *)
| EvEncrypt (method : string) (v : Z)   (* encryptWith(builder[method](v)) *)
| EvSend                                (* writeContract.submitAnswer(...) *)
| EvWait                                (* tx.wait() *)
| EvRefresh.                            (* refreshAnswer() *)

Inductive Mode : Type := read | write.

Section WithWorld.

(** The values the SDK passes around: an encryption result, call parameters,
    a sent transaction. *)
Variables Enc Params Tx : Type.

(** Everything around the hook: the deployed-contract info, the wallet, the
    FHEVM SDK and the chain, each call with the result it gives. *)
Record World : Type := mkWorld {
  (* fheZamaQuiz?.abi.find(...) for "submitAnswer": None when not found, else
     the internalType of its first input *)
  abi_submitAnswer : option (option string);
  getEncryptionMethod : option string -> option string;
  hasContract : bool;
  ethersSigner : bool;
  ethersReadonlyProvider : bool;
  encryptWith : string -> Z -> Outcome (option Enc);
  buildParamsFromAbi : Enc -> Outcome Params;
  contract_submitAnswer : Params -> Outcome Tx;
  tx_wait : Tx -> Outcome unit;
  refreshAnswer : Outcome (option string)
}.

Definition getContract (w : World) (mode : Mode) : option unit :=
  if negb (hasContract w) then None
  else
    let providerOrSigner :=
      match mode with read => ethersReadonlyProvider w | write => ethersSigner w end in
    if negb providerOrSigner then None else Some tt.

(** [getEncryptionMethodFor("submitAnswer")]: the pair (method, error). *)
Definition getEncryptionMethodFor (w : World) : option string * option string :=
  match abi_submitAnswer w with
  | None => (None, Some "Function ABI not found for submitAnswer")
  | Some internalType => (getEncryptionMethod w internalType, None)
  end.

Definition dquote : string := String (ascii_of_nat 34) EmptyString.

(** The [catch] clause. *)
Definition catch (msg : string) (st : HookState) : HookState :=
  setMessage ("❌ " ++ msg) st.

(** The [try] block of [submitAnswer] with its [catch]. *)
Definition submitAnswer_try (w : World) (answerString : string)
    (st : HookState) : HookState * list Event :=
  let '(method, error) := getEncryptionMethodFor w in
  match method with
  | Some method =>
    if negb (truthy method)
    then (setMessage (default "Encryption method not found" error) st, [])
    else
    match Codec.stringToBigInt answerString with
    | Throws _ msg => (catch msg st, [EvEncode answerString])
    | Returns encoded =>
    let evs := [EvEncode answerString; EvEncrypt method encoded] in
    match encryptWith w method encoded with
    | Throws _ msg => (catch msg st, evs)
    | Returns None => (setMessage "Encryption failed" st, evs)
    | Returns (Some enc) =>
    match getContract w write with
    | None => (setMessage "Contract not available" st, evs)
    | Some _ =>
    match buildParamsFromAbi w enc with
    | Throws _ msg => (catch msg st, evs)
    | Returns params =>
    match contract_submitAnswer w params with
    | Throws _ msg => (catch msg st, (evs ++ [EvSend])%list)
    | Returns tx =>
    match tx_wait w tx with
    | Throws _ msg => (catch msg st, (evs ++ [EvSend; EvWait])%list)
    | Returns _ =>
    match refreshAnswer w with
    | Throws _ msg => (catch msg st, (evs ++ [EvSend; EvWait; EvRefresh])%list)
    | Returns data =>
        (setMessage "✅ Quiz submitted successfully!" (setEncryptedAnswer data st),
         (evs ++ [EvSend; EvWait; EvRefresh])%list)
    end end end end end end end
  | None => (setMessage (default "Encryption method not found" error) st, [])
  end.

(** [submitAnswer] is a callback made at a render ([useCallback], with
    [isProcessing] among its dependencies): the [isProcessing] its guard reads
    is the value the state had at that render, which the callback closes
    over; its writes go to the state [st] the hook has when it is called.  A
    call is followed to its end. *)
Definition submitAnswer (w : World) (isProcessing : bool)
    (answerString : string) (st : HookState) : HookState * list Event :=
  if negb (truthy answerString) || isProcessing then (st, [])
  else
    let st := setIsProcessing true st in
    let st := setMessage
      ("Submitting answer " ++ dquote ++ answerString ++ dquote ++ "...") st in
    let '(st, evs) := submitAnswer_try w answerString st in
    (* finally *)
    (setIsProcessing false st, evs).

(** The [submitAnswer] the hook returns at the render of the state
    [rendered]. *)
Definition submitAnswer_at_render (w : World) (rendered : HookState)
    : string -> HookState -> HookState * list Event :=
  submitAnswer w (Hook.isProcessing rendered).

(** How far the [try] block gets on a text: the steps that returned, each
    with the value it gave to the next. *)
Definition hasMethod (w : World) (method : string) : Prop :=
  fst (getEncryptionMethodFor w) = Some method /\ truthy method = true.

Definition encrypts (w : World) (text : string) (enc : Enc) : Prop :=
  exists (method : string) (encoded : Z),
    hasMethod w method /\
    Codec.stringToBigInt text = Returns encoded /\
    encryptWith w method encoded = Returns (Some enc).

Definition builds (w : World) (text : string) (params : Params) : Prop :=
  exists enc : Enc,
    encrypts w text enc /\
    getContract w write = Some tt /\
    buildParamsFromAbi w enc = Returns params.

Definition sends (w : World) (text : string) (tx : Tx) : Prop :=
  exists params : Params,
    builds w text params /\ contract_submitAnswer w params = Returns tx.

Definition confirms (w : World) (text : string) : Prop :=
  exists tx : Tx, sends w text tx /\ tx_wait w tx = Returns tt.

Definition succeeds (w : World) (text : string) (data : option string)
    : Prop :=
  confirms w text /\ refreshAnswer w = Returns data.

(** The message a call that got past the guard ends with, by the first step
    that did not return a value to go on with; the success text when every
    step returned. *)
Inductive ends (w : World) (text : string) : string -> Prop :=
| ends_no_method :
    (forall method : string,
       fst (getEncryptionMethodFor w) = Some method ->
       truthy method = false) ->
    ends w text
      (default "Encryption method not found" (snd (getEncryptionMethodFor w)))
| ends_encode_throws (method name msg : string) :
    hasMethod w method ->
    Codec.stringToBigInt text = Throws name msg ->
    ends w text ("❌ " ++ msg)
| ends_encrypt_throws (method : string) (encoded : Z) (name msg : string) :
    hasMethod w method ->
    Codec.stringToBigInt text = Returns encoded ->
    encryptWith w method encoded = Throws name msg ->
    ends w text ("❌ " ++ msg)
| ends_encrypt_undefined (method : string) (encoded : Z) :
    hasMethod w method ->
    Codec.stringToBigInt text = Returns encoded ->
    encryptWith w method encoded = Returns None ->
    ends w text "Encryption failed"
| ends_no_contract (enc : Enc) :
    encrypts w text enc ->
    getContract w write = None ->
    ends w text "Contract not available"
| ends_build_throws (enc : Enc) (name msg : string) :
    encrypts w text enc ->
    getContract w write = Some tt ->
    buildParamsFromAbi w enc = Throws name msg ->
    ends w text ("❌ " ++ msg)
| ends_send_throws (params : Params) (name msg : string) :
    builds w text params ->
    contract_submitAnswer w params = Throws name msg ->
    ends w text ("❌ " ++ msg)
| ends_wait_throws (tx : Tx) (name msg : string) :
    sends w text tx ->
    tx_wait w tx = Throws name msg ->
    ends w text ("❌ " ++ msg)
| ends_refresh_throws (name msg : string) :
    confirms w text ->
    refreshAnswer w = Throws name msg ->
    ends w text ("❌ " ++ msg)
| ends_success (data : option string) :
    succeeds w text data ->
    ends w text "✅ Quiz submitted successfully!".

End WithWorld.

Arguments mkWorld {Enc Params Tx}.
Arguments abi_submitAnswer {Enc Params Tx} w.
Arguments getEncryptionMethod {Enc Params Tx} w.
Arguments hasContract {Enc Params Tx} w.
Arguments ethersSigner {Enc Params Tx} w.
Arguments ethersReadonlyProvider {Enc Params Tx} w.
Arguments encryptWith {Enc Params Tx} w.
Arguments buildParamsFromAbi {Enc Params Tx} w.
Arguments contract_submitAnswer {Enc Params Tx} w.
Arguments tx_wait {Enc Params Tx} w.
Arguments refreshAnswer {Enc Params Tx} w.
Arguments getContract {Enc Params Tx} w mode.
Arguments getEncryptionMethodFor {Enc Params Tx} w.
Arguments submitAnswer_try {Enc Params Tx} w answerString st.
Arguments submitAnswer {Enc Params Tx} w isProcessing answerString st.
Arguments submitAnswer_at_render {Enc Params Tx} w rendered.
Arguments hasMethod {Enc Params Tx} w method.
Arguments encrypts {Enc Params Tx} w text enc.
Arguments builds {Enc Params Tx} w text params.
Arguments sends {Enc Params Tx} w text tx.
Arguments confirms {Enc Params Tx} w text.
Arguments succeeds {Enc Params Tx} w text data.
Arguments ends {Enc Params Tx} w text _.

(** The messages [submitAnswer] leaves when a step after its guard fails. *)
Definition failureReason (m : string) : Prop :=
  m = "Function ABI not found for submitAnswer" \/
  m = "Encryption method not found" \/
  m = "Encryption failed" \/
  m = "Contract not available" \/
  exists msg : string, m = "❌ " ++ msg.

(** A world for examples, in which every step succeeds and the read returns
    the handle 5. *)
Definition sampleWorld : World unit unit unit :=
  {| abi_submitAnswer := Some (Some "externalEuint32");
     getEncryptionMethod := fun _ => Some "add32";
     hasContract := true;
     ethersSigner := true;
     ethersReadonlyProvider := true;
     encryptWith := fun _ _ => Returns (Some tt);
     buildParamsFromAbi := fun _ => Returns tt;
     contract_submitAnswer := fun _ => Returns tt;
     tx_wait := fun _ => Returns tt;
     refreshAnswer := Returns (Some (bytes32ToHex 5)) |}.

(** The world [sampleWorld] with an encryption that gives no result. *)
Definition failingWorld : World unit unit unit :=
  {| abi_submitAnswer := abi_submitAnswer sampleWorld;
     getEncryptionMethod := getEncryptionMethod sampleWorld;
     hasContract := hasContract sampleWorld;
     ethersSigner := ethersSigner sampleWorld;
     ethersReadonlyProvider := ethersReadonlyProvider sampleWorld;
     encryptWith := fun _ _ => Returns None;
     buildParamsFromAbi := buildParamsFromAbi sampleWorld;
     contract_submitAnswer := contract_submitAnswer sampleWorld;
     tx_wait := tx_wait sampleWorld;
     refreshAnswer := refreshAnswer sampleWorld |}.

(** The hook's state before anything happened. *)
Definition initialState : HookState :=
  {| message := ""; isProcessing := false; encryptedAnswer := None |}.

(** A value of the decryption results: a string, a bigint or a boolean. *)
Inductive ClearValue : Type :=
| ClearString (s : string)
| ClearBigInt (bn : Z)
| ClearBoolean (b : bool).

(** The effect that runs when [results] changes, as the [decryptedString] it
    leaves.  [results] is undefined or a record, given by its entries in key
    order (its keys are handles, so the order they were added in). *)
Definition results_effect (results : option (list (string * ClearValue)))
    (decryptedString : string) : string :=
  match results with
  | None => decryptedString
  | Some nil => decryptedString
  | Some ((handle, decryptedBigInt) :: _) =>
      match decryptedBigInt with
      | ClearBigInt bn => Codec.bigIntToString bn
      | _ => decryptedString
      end
  end.

End Hook.

(** ** The quiz component: [FHEZamaQuiz.tsx] *)

Module Quiz.

(** The three selections, each a label or the empty string. *)
Record Answers : Type := mkAnswers {
  q1 : string;
  q2 : string;
  q3 : string
}.

Definition correctAnswers : string := "BBA".

(** [answers.q1 && answers.q2 && answers.q3], as the condition it is used
    for. *)
Definition allAnswered (answers : Answers) : bool :=
  Hook.truthy (q1 answers) && Hook.truthy (q2 answers)
  && Hook.truthy (q3 answers).

(** The text [handleSubmit] passes to [quiz.submitAnswer]. *)
Definition answerString (answers : Answers) : string :=
  q1 answers ++ q2 answers ++ q3 answers.

(** [str[i]]: the character at an index, undefined past the end.  (An index
    counts UTF-16 units, which are the bytes of a text of single-byte
    characters.) *)
Definition charAt (str : string) (i : nat) : option string :=
  match String.get i str with
  | Some c => Some (String c EmptyString)
  | None => None
  end.

(** The effect on [quiz.decryptedString]: the selections it leaves. *)
Definition decrypted_effect (decryptedString : string) (answers : Answers)
    : Answers :=
  if Hook.truthy decryptedString
  then {| q1 := default "" (charAt decryptedString 0);
          q2 := default "" (charAt decryptedString 1);
          q3 := default "" (charAt decryptedString 2) |}
  else answers.

(** [a === b] on characters that may be undefined. *)
Definition strictEq (a b : option string) : bool :=
  match a, b with
  | Some x, Some y => String.eqb x y
  | None, None => true
  | _, _ => false
  end.

(** The loop of [QuizResult] from index [i] on, for [steps] more rounds. *)
Fixpoint countLoop (decrypted correct : string) (i steps correctCount : nat)
    : nat :=
  match steps with
  | O => correctCount
  | S steps' =>
      countLoop decrypted correct (S i) steps'
        (if strictEq (charAt decrypted i) (charAt correct i)
         then S correctCount else correctCount)
  end.

(** [correctCount] once the loop has run over all of [correct]. *)
Definition loopCount (decrypted correct : string) : nat :=
  countLoop decrypted correct 0 (String.length correct) 0.

(** What [QuizResult] renders: the waiting line, or the lines of a score with
    the values [correctCount], [total] and [isPerfect] they show. *)
Inductive Rendered : Type :=
| Waiting
| Scored (correctCount total : nat) (isPerfect : bool).

(** [QuizResult({ decrypted, correct })].  The prop [decrypted] is optional;
    when it is undefined or the empty string the component returns at its
    first line and computes no score. *)
Definition QuizResult (decrypted : option string) (correct : string)
    : Rendered :=
  match decrypted with
  | None => Waiting
  | Some decrypted =>
      if negb (Hook.truthy decrypted) then Waiting
      else
        let total := String.length correct in
        let correctCount := loopCount decrypted correct in
        let isPerfect := Nat.eqb correctCount total in
        Scored correctCount total isPerfect
  end.

(** The [correctCount] and [isPerfect] of [QuizResult], which exist only when
    it gets past its first line. *)
Definition correctCount (decrypted : option string) (correct : string)
    : option nat :=
  match QuizResult decrypted correct with
  | Waiting => None
  | Scored correctCount _ _ => Some correctCount
  end.

Definition isPerfect (decrypted : option string) (correct : string)
    : option bool :=
  match QuizResult decrypted correct with
  | Waiting => None
  | Scored _ _ isPerfect => Some isPerfect
  end.

End Quiz.

(** * Properties of the store *)

Section StoreProperties.

Import Store.

Variable this : N.
Variable verify : N -> N -> N -> list Byte.byte -> option N.

Local Abbreviation submitAnswer := (Store.submitAnswer this verify).
Local Abbreviation exec := (Store.exec this verify).
Local Abbreviation execs := (Store.execs this verify).
Local Abbreviation reachable := (Store.reachable this verify).

(** [submitAnswer] in closed form: the guard, the verifier, then the three
    writes. *)
Lemma submitAnswer_unfold (u h : N) (p : list Byte.byte) (s : State) :
  submitAnswer u h p s =
    if default false (_hasAnswered s !! u)
    then Revert (Error_string "Already answered")
    else match verify this u h p with
         | None => Revert VerificationFailed
         | Some v =>
             Ok (tt, {| _userAnswer := <[u := v]> (_userAnswer s);
                        _hasAnswered := <[u := true]> (_hasAnswered s);
                        acl := {[ (v, this) ]} ∪ ({[ (v, u) ]} ∪ acl s) |})
         end.
Proof.
  unfold Store.submitAnswer, bind, read_hasAnswered, require, FHE_fromExternal.
  destruct (default false (_hasAnswered s !! u)); simpl; [reflexivity|].
  destruct (verify this u h p); reflexivity.
Qed.

Lemma submitAnswer_ok_inv (u h : N) (p : list Byte.byte) (s s' : State) :
  submitAnswer u h p s = Ok (tt, s') ->
  default false (_hasAnswered s !! u) = false /\
  exists v, verify this u h p = Some v /\
    _userAnswer s' = <[u := v]> (_userAnswer s) /\
    _hasAnswered s' = <[u := true]> (_hasAnswered s).
Proof.
  rewrite submitAnswer_unfold.
  destruct (default false (_hasAnswered s !! u)); [discriminate|].
  destruct (verify this u h p) as [v|]; [|discriminate].
  intros [= <-]. split; [reflexivity|]. exists v. auto.
Qed.

Lemma returns_hasAnswered (s : State) (u : N) :
  returns (hasAnswered u) s = Some (default false (_hasAnswered s !! u)).
Proof. reflexivity. Qed.

Lemma returns_getEncryptedAnswer (s : State) (u : N) :
  returns (getEncryptedAnswer u) s = Some (default 0%N (_userAnswer s !! u)).
Proof. reflexivity. Qed.

(** The views write nothing. *)
Lemma exec_view_hasAnswered (s : State) (u : N) : exec s (CallHasAnswered u) = s.
Proof. reflexivity. Qed.

Lemma exec_view_getEncryptedAnswer (s : State) (u : N) :
  exec s (CallGetEncryptedAnswer u) = s.
Proof. reflexivity. Qed.

(** One call never clears a flag and never rewrites the handle of an identity
    whose flag is set. *)
Lemma exec_keeps_record (s : State) (c : Call) (u : N) :
  default false (_hasAnswered s !! u) = true ->
  default false (_hasAnswered (exec s c) !! u) = true /\
  _userAnswer (exec s c) !! u = _userAnswer s !! u.
Proof.
  intros Hu. destruct c as [w h p| |]; simpl; auto.
  unfold commit. rewrite submitAnswer_unfold.
  destruct (default false (_hasAnswered s !! w)) eqn:Hw; [auto|].
  destruct (verify this w h p) as [v|]; [|auto]. simpl.
  assert (w <> u) by (intros ->; congruence).
  rewrite !lookup_insert_ne by assumption. auto.
Qed.

Lemma execs_keeps_record (cs : list Call) (s : State) (u : N) :
  default false (_hasAnswered s !! u) = true ->
  default false (_hasAnswered (execs s cs) !! u) = true /\
  _userAnswer (execs s cs) !! u = _userAnswer s !! u.
Proof.
  revert s. induction cs as [|c cs IH]; intros s Hu; simpl; [auto|].
  destruct (exec_keeps_record s c u Hu) as [Hf Hh].
  destruct (IH _ Hf) as [Hf' Hh']. split; [assumption|congruence].
Qed.

(** C1: once [submitAnswer] has returned for [u], after any further calls
    [hasAnswered(u)] is true, the stored handle is the one that call stored,
    and every [submitAnswer] of [u] reverts with "Already answered" and leaves
    the whole state as it was. *)
Theorem C1_first_writer_wins (s s1 : State) (u h : N) (p : list Byte.byte) :
  submitAnswer u h p s = Ok (tt, s1) ->
  forall cs : list Call,
    let s2 := execs s1 cs in
    hasAnswered u s2 = Ok (true, s2) /\
    returns (getEncryptedAnswer u) s2 = verify this u h p /\
    returns (getEncryptedAnswer u) s2 = returns (getEncryptedAnswer u) s1 /\
    forall (h' : N) (p' : list Byte.byte),
      submitAnswer u h' p' s2 = Revert (Error_string "Already answered") /\
      exec s2 (CallSubmitAnswer u h' p') = s2.
Proof.
  intros Hok cs s2.
  destruct (submitAnswer_ok_inv _ _ _ _ _ Hok) as (_ & v & Hv & Ha & Hf).
  assert (H1 : default false (_hasAnswered s1 !! u) = true)
    by (rewrite Hf, lookup_insert_eq; reflexivity).
  destruct (execs_keeps_record cs s1 u H1) as [H2 H3]. fold s2 in H2, H3.
  assert (Hs1 : returns (getEncryptedAnswer u) s1 = Some v).
  { unfold returns, getEncryptedAnswer, read_userAnswer.
    rewrite Ha, lookup_insert_eq. reflexivity. }
  assert (Hs2 : returns (getEncryptedAnswer u) s2 = Some v).
  { unfold returns, getEncryptedAnswer, read_userAnswer in *.
    rewrite H3. exact Hs1. }
  repeat split.
  - unfold hasAnswered, read_hasAnswered. rewrite H2. reflexivity.
  - congruence.
  - congruence.
  - rewrite submitAnswer_unfold, H2. reflexivity.
  - simpl. unfold commit. rewrite submitAnswer_unfold, H2. reflexivity.
Qed.

(** C5: a [submitAnswer] of [u] that returns leaves the flag and the handle of
    every other identity as they were. *)
Theorem C5_other_identities_untouched (s s' : State) (u v h : N)
    (p : list Byte.byte) :
  submitAnswer u h p s = Ok (tt, s') ->
  v <> u ->
  returns (hasAnswered v) s' = returns (hasAnswered v) s /\
  returns (getEncryptedAnswer v) s' = returns (getEncryptedAnswer v) s /\
  _hasAnswered s' !! v = _hasAnswered s !! v /\
  _userAnswer s' !! v = _userAnswer s !! v.
Proof.
  intros Hok Hne.
  destruct (submitAnswer_ok_inv _ _ _ _ _ Hok) as (_ & x & _ & Ha & Hf).
  assert (E1 : _hasAnswered s' !! v = _hasAnswered s !! v)
    by (rewrite Hf; apply lookup_insert_ne; congruence).
  assert (E2 : _userAnswer s' !! v = _userAnswer s !! v)
    by (rewrite Ha; apply lookup_insert_ne; congruence).
  unfold returns, hasAnswered, getEncryptedAnswer, read_hasAnswered,
    read_userAnswer.
  rewrite E1, E2. auto.
Qed.

(** C7: [getEncryptedAnswer] returns a value and the state it ran in; a second
    read right after it returns the same value, and the call leaves the state
    as it was. *)
Theorem C7_getEncryptedAnswer_pure (s : State) (u : N) :
  exists v : N,
    getEncryptedAnswer u s = Ok (v, s) /\
    (do v1 <- getEncryptedAnswer u;
     do v2 <- getEncryptedAnswer u;
     ret (v1, v2)) s = Ok ((v, v), s) /\
    exec s (CallGetEncryptedAnswer u) = s /\
    getEncryptedAnswer u (exec s (CallGetEncryptedAnswer u)) = Ok (v, s).
Proof.
  exists (default 0%N (_userAnswer s !! u)). repeat split.
Qed.

Lemma handle_implies_flag_exec (s : State) (c : Call) :
  handle_implies_flag s -> handle_implies_flag (exec s c).
Proof.
  intros Hs. destruct c as [w h p| |]; simpl; auto.
  unfold commit. rewrite submitAnswer_unfold.
  destruct (default false (_hasAnswered s !! w)) eqn:Hw; [assumption|].
  destruct (verify this w h p) as [v|]; [|assumption].
  intros u; simpl. destruct (decide (w = u)) as [->|Hne].
  - rewrite lookup_insert_eq. discriminate.
  - rewrite !lookup_insert_ne by assumption. apply Hs.
Qed.

Lemma handle_implies_flag_execs (cs : list Call) (s : State) :
  handle_implies_flag s -> handle_implies_flag (execs s cs).
Proof.
  revert s. induction cs as [|c cs IH]; intros s Hs; simpl; [assumption|].
  apply IH, handle_implies_flag_exec, Hs.
Qed.

Lemma handle_implies_flag_init : handle_implies_flag init.
Proof. intros u _. reflexivity. Qed.

(** A flag is set by a returning [submitAnswer] of that identity and by
    nothing else. *)
Lemma exec_flag_inv (s : State) (c : Call) (u : N) :
  default false (_hasAnswered (exec s c) !! u) = true ->
  default false (_hasAnswered s !! u) = true \/
  exists h p, c = CallSubmitAnswer u h p /\
              returns (submitAnswer u h p) s = Some tt.
Proof.
  destruct c as [w h p| |]; simpl; auto.
  unfold commit, returns. rewrite submitAnswer_unfold.
  destruct (default false (_hasAnswered s !! w)) eqn:Hw; [auto|].
  destruct (verify this w h p) as [v|] eqn:Hv; [|auto]. simpl.
  destruct (decide (w = u)) as [->|Hne].
  - intros _. right. exists h, p. split; [reflexivity|].
    rewrite submitAnswer_unfold, Hw, Hv. reflexivity.
  - rewrite lookup_insert_ne by assumption. auto.
Qed.

Lemma execs_flag_iff (cs : list Call) (s : State) (u : N) :
  default false (_hasAnswered (execs s cs) !! u) = true <->
  default false (_hasAnswered s !! u) = true \/
  Store.submitted_in this verify s cs u.
Proof.
  revert s. induction cs as [|c cs IH]; intros s; simpl.
  - tauto.
  - rewrite IH. split.
    + intros [H|H]; [|auto].
      destruct (exec_flag_inv s c u H) as [H'|H']; auto.
    + intros [H|[(h & p & -> & Hr)|H]]; [left|left|auto].
      * apply (exec_keeps_record s c u H).
      * simpl. unfold commit, returns in *.
        destruct (submitAnswer u h p s) as [[[] s']|] eqn:E; [|discriminate].
        destruct (submitAnswer_ok_inv _ _ _ _ _ E) as (_ & v & _ & _ & Hf).
        rewrite Hf, lookup_insert_eq. reflexivity.
Qed.

(** C6: in the initial state [hasAnswered(u)] is false and
    [getEncryptedAnswer(u)] is the zero handle; and after any calls, for an
    identity that has not submitted (no [submitAnswer] of it has returned),
    [hasAnswered] is still false and [getEncryptedAnswer] still the zero
    handle. *)
Theorem C6_initial_state (u : N) :
  hasAnswered u init = Ok (false, init) /\
  getEncryptedAnswer u init = Ok (zeroHandle, init) /\
  forall cs : list Call,
    let s := execs init cs in
    ~ Store.submitted_in this verify init cs u ->
    hasAnswered u s = Ok (false, s) /\
    getEncryptedAnswer u s = Ok (zeroHandle, s).
Proof.
  split; [reflexivity|]. split; [reflexivity|].
  intros cs s Hn.
  assert (Hf : default false (_hasAnswered s !! u) = false).
  { destruct (default false (_hasAnswered s !! u)) eqn:E; [|reflexivity].
    apply execs_flag_iff in E. destruct E as [E|E]; [discriminate E|].
    contradiction. }
  pose proof (handle_implies_flag_execs cs init handle_implies_flag_init u Hf)
    as Hh.
  fold s in Hh.
  unfold hasAnswered, read_hasAnswered, getEncryptedAnswer, read_userAnswer.
  rewrite Hf, Hh. split; reflexivity.
Qed.

Lemma present_implies_submitted_iff (s : State) :
  present_implies_submitted s <-> handle_implies_flag s.
Proof.
  unfold present_implies_submitted, handle_implies_flag.
  split; intros H u; specialize (H u); revert H;
    rewrite returns_getEncryptedAnswer, returns_hasAnswered;
    unfold zeroHandle;
    destruct (default false (_hasAnswered s !! u));
    destruct (N.eq_dec (default 0%N (_userAnswer s !! u)) 0%N) as [E|E];
    intros H; try congruence.
  - intros _. exfalso. assert (Some false = Some true); [|discriminate].
    apply H. congruence.
  - intros _. specialize (H eq_refl). contradiction.
Qed.

Lemma stored_is_verified_init : stored_is_verified this verify init.
Proof. intros u. rewrite returns_hasAnswered. discriminate. Qed.

Lemma stored_is_verified_exec (s : State) (c : Call) :
  stored_is_verified this verify s ->
  stored_is_verified this verify (exec s c).
Proof.
  intros Hs. destruct c as [w h p| |]; simpl; auto.
  unfold commit. rewrite submitAnswer_unfold.
  destruct (default false (_hasAnswered s !! w)) eqn:Hw; [assumption|].
  destruct (verify this w h p) as [v|] eqn:Hv; [|assumption].
  intros u. specialize (Hs u). revert Hs.
  rewrite !returns_getEncryptedAnswer, !returns_hasAnswered. simpl.
  destruct (decide (w = u)) as [->|Hne].
  - rewrite !lookup_insert_eq; simpl. intros _ _. exists h, p. exact Hv.
  - rewrite !lookup_insert_ne by assumption. trivial.
Qed.

Lemma stored_is_verified_execs (cs : list Call) (s : State) :
  stored_is_verified this verify s ->
  stored_is_verified this verify (execs s cs).
Proof.
  revert s. induction cs as [|c cs IH]; intros s Hs; simpl; [assumption|].
  apply IH, stored_is_verified_exec, Hs.
Qed.


(** Assumed of the FHE library from here on: the handle it returns for a
    verified input is never the zero handle.  The contract stores what
    [FHE.fromExternal] returns and does not look at it. *)
Hypothesis verify_nonzero :
  forall (u h : N) (p : list Byte.byte) (v : N),
    verify this u h p = Some v -> v <> zeroHandle.

Lemma consistent_init : consistent init.
Proof.
  intros u. unfold returns, hasAnswered, getEncryptedAnswer; simpl.
  rewrite !lookup_empty; simpl. split; [discriminate|]. intros H; now elim H.
Qed.

Lemma consistent_exec (s : State) (c : Call) :
  consistent s -> consistent (exec s c).
Proof.
  intros Hs. destruct c as [w h p| |]; simpl; auto.
  unfold commit. rewrite submitAnswer_unfold.
  destruct (default false (_hasAnswered s !! w)) eqn:Hw; [assumption|].
  destruct (verify this w h p) as [v|] eqn:Hv; [|assumption].
  intros u. specialize (Hs u). revert Hs.
  unfold returns, hasAnswered, getEncryptedAnswer, read_hasAnswered,
    read_userAnswer; simpl.
  destruct (decide (w = u)) as [->|Hne].
  - rewrite !lookup_insert_eq; simpl. intros _. split; [|reflexivity].
    intros _ [= E]. exact (verify_nonzero _ _ _ _ Hv E).
  - rewrite !lookup_insert_ne by assumption. trivial.
Qed.

Lemma consistent_execs (cs : list Call) (s : State) :
  consistent s -> consistent (execs s cs).
Proof.
  revert s. induction cs as [|c cs IH]; intros s Hs; simpl; [assumption|].
  apply IH, consistent_exec, Hs.
Qed.

End StoreProperties.

(** The sample verifier never returns the zero handle. *)
Lemma sampleVerify_nonzero (this u h : N) (p : list Byte.byte) (v : N) :
  Store.sampleVerify this u h p = Some v -> v <> Store.zeroHandle.
Proof.
  unfold Store.sampleVerify. destruct p; [discriminate|].
  destruct (N.eqb_spec h 0); [discriminate|]. intros [= <-]. assumption.
Qed.

Lemma C1_first_writer_wins_witness :
  exists s1 : Store.State,
    Store.submitAnswer 7 Store.sampleVerify 1 5 [Byte.x01] Store.init
      = Store.Ok (tt, s1) /\
    Store.submitAnswer 7 Store.sampleVerify 1 9 [Byte.x02]
        (Store.execs 7 Store.sampleVerify s1
           [Store.CallSubmitAnswer 2 6 [Byte.x03]])
      = Store.Revert (Store.Error_string "Already answered").
Proof.
  eexists. split; [reflexivity|].
  apply (C1_first_writer_wins 7 Store.sampleVerify Store.init _ 1 5 [Byte.x01]
           eq_refl [Store.CallSubmitAnswer 2 6 [Byte.x03]]).
Defined.

Lemma C5_other_identities_untouched_witness :
  exists s' : Store.State,
    Store.submitAnswer 7 Store.sampleVerify 1 5 [Byte.x01] Store.init
      = Store.Ok (tt, s') /\
    Store.returns (Store.hasAnswered 2) s'
      = Store.returns (Store.hasAnswered 2) Store.init.
Proof.
  eexists. split; [reflexivity|].
  apply (C5_other_identities_untouched 7 Store.sampleVerify Store.init _ 1 2 5
           [Byte.x01] eq_refl).
  discriminate.
Defined.

Lemma C6_initial_state_witness :
  let s := Store.execs 7 Store.sampleVerify Store.init
             [Store.CallSubmitAnswer 1 5 [Byte.x01]] in
  Store.hasAnswered 2 s = Store.Ok (false, s) /\
  Store.getEncryptedAnswer 2 s = Store.Ok (Store.zeroHandle, s).
Proof.
  apply (proj2 (proj2 (C6_initial_state 7 Store.sampleVerify 2))
           [Store.CallSubmitAnswer 1 5 [Byte.x01]]).
  simpl. intros [(h & p & E & _)|[]]. discriminate E.
Defined.



(** * Properties of the codec *)

Section CodecProperties.

Import Codec.

(** The codec on the values of the repository's tests, and Node's hex
    decoder on the inputs its documentation shows. *)
Example stringToBigInt_ABC : stringToBigInt "ABC" = Returns 4276803%Z.
Proof. reflexivity. Qed.

Example bigIntToString_ABC : bigIntToString 4276803 = "ABC".
Proof. reflexivity. Qed.

Example bigIntToString_A : bigIntToString (0x41)%Z = "A".
Proof. reflexivity. Qed.

Example Buffer_from_hex_truncates :
  Buffer_from_hex "1ag123" = [Byte.x1a] /\ Buffer_from_hex "1a7" = [Byte.x1a] /\
  Buffer_from_hex "1634" = [Byte.x16; Byte.x34] /\
  Buffer_from_hex "1A" = [Byte.x1a].
Proof. repeat split. Qed.

(* The sixteen cases of a value below 16. *)
Ltac digit_cases n H :=
  let p := fresh "p" in
  destruct n as [|p];
  [| do 4 (try destruct p as [p|p|]); try (exfalso; clear - H; lia)];
  clear H.

Lemma string_of_digitOf (n : N) (d : uint) :
  (n < 16)%N ->
  NilEmpty.string_of_uint (digitOf n d)
    = String (hexChar n) (NilEmpty.string_of_uint d).
Proof. intros H. digit_cases n H; reflexivity. Qed.

Lemma hexVal_hexChar (n : N) : (n < 16)%N -> hexVal (hexChar n) = Some n.
Proof. intros H. digit_cases n H; reflexivity. Qed.

Lemma hexAcc_digitOf (n : N) (d : uint) (acc : N) :
  (n < 16)%N -> hexAcc (digitOf n d) acc = hexAcc d (16 * acc + n)%N.
Proof.
  intros H. digit_cases n H; simpl; rewrite ?N.add_0_r; reflexivity.
Qed.

Lemma byte_hi_lt (b : Byte.byte) : (Byte.to_N b / 16 < 16)%N.
Proof.
  pose proof (Byte.to_N_bounded b).
  apply N.Div0.div_lt_upper_bound. lia.
Qed.

Lemma byte_lo_lt (b : Byte.byte) : (Byte.to_N b mod 16 < 16)%N.
Proof. apply N.mod_lt. discriminate. Qed.

Lemma byte_hi_lo (b : Byte.byte) :
  (16 * (Byte.to_N b / 16) + Byte.to_N b mod 16)%N = Byte.to_N b.
Proof. symmetry. apply N.div_mod. discriminate. Qed.

(** The digits of [hexBytes] are those of [bytesDigits]. *)
Lemma string_of_bytesDigits (bytes : list Byte.byte) :
  NilEmpty.string_of_uint (bytesDigits bytes) = hexBytes bytes.
Proof.
  induction bytes as [|b rest IH]; [reflexivity|].
  simpl. unfold byteDigits, hexByte.
  rewrite !string_of_digitOf by (apply byte_hi_lt || apply byte_lo_lt).
  rewrite IH. reflexivity.
Qed.

Lemma uint_of_hexBytes (bytes : list Byte.byte) :
  NilEmpty.uint_of_string (hexBytes bytes) = Some (bytesDigits bytes).
Proof. rewrite <- string_of_bytesDigits. apply NilEmpty.usu. Qed.

Lemma of_hex_uint_acc_hexAcc (d : uint) (acc : positive) :
  Npos (Pos.of_hex_uint_acc d acc) = hexAcc d (Npos acc).
Proof.
  revert acc. induction d; intros acc; simpl; [reflexivity|..];
    rewrite IHd; f_equal; lia.
Qed.

Lemma of_hex_uint_hexAcc (d : uint) : N.of_hex_uint d = hexAcc d 0.
Proof.
  unfold N.of_hex_uint.
  induction d; simpl; [reflexivity|assumption|..];
    apply of_hex_uint_acc_hexAcc.
Qed.

Lemma hexAcc_bytesDigits (bytes : list Byte.byte) (acc : N) :
  hexAcc (bytesDigits bytes) acc
    = fold_left (fun a b => 256 * a + Byte.to_N b)%N bytes acc.
Proof.
  revert acc. induction bytes as [|b rest IH]; intros acc; [reflexivity|].
  simpl. unfold byteDigits.
  rewrite !hexAcc_digitOf by (apply byte_hi_lt || apply byte_lo_lt).
  rewrite IH. f_equal. pose proof (byte_hi_lo b). lia.
Qed.

Lemma of_hex_uint_bytesDigits (bytes : list Byte.byte) :
  N.of_hex_uint (bytesDigits bytes) = bigEndian bytes.
Proof. rewrite of_hex_uint_hexAcc. apply hexAcc_bytesDigits. Qed.

Lemma substring_all (s : string) : substring 0 (String.length s) s = s.
Proof. induction s; simpl; congruence. Qed.

Lemma substring_from_hexlify (bytes : list Byte.byte) :
  substring_from 2 (hexlify bytes) = hexBytes bytes.
Proof.
  unfold substring_from, hexlify. simpl.
  rewrite Nat.sub_0_r. apply substring_all.
Qed.

Lemma hexBytes_nonempty (b : Byte.byte) (rest : list Byte.byte) :
  exists c s, hexBytes (b :: rest) = String c s.
Proof. simpl. unfold hexByte. simpl. eauto. Qed.

(** Once there are bytes, and at least one, [BigInt] is given digits and
    returns their value. *)
Lemma BigInt_of_bytes (bytes : list Byte.byte) :
  bytes <> nil ->
  BigInt ("0x" ++ substring_from 2 (hexlify bytes))
  = Returns (Z.of_N (bigEndian bytes)).
Proof.
  intros Hne. rewrite substring_from_hexlify.
  destruct bytes as [|b rest]; [now elim Hne|].
  change ("0x" ++ hexBytes (b :: rest))
    with (String "0" (String "x" (hexBytes (b :: rest)))).
  unfold BigInt.
  destruct (hexBytes_nonempty b rest) as (c & s & Hs).
  unfold NilZero.uint_of_string.
  assert (H : NilEmpty.uint_of_string (hexBytes (b :: rest))
              = Some (bytesDigits (b :: rest))) by apply uint_of_hexBytes.
  rewrite Hs in *. rewrite H.
  now rewrite of_hex_uint_bytesDigits.
Qed.

(** [stringToBigInt] in closed form: a SyntaxError on the text without bytes,
    the big-endian value of the bytes otherwise. *)
Lemma stringToBigInt_bytes (str : string) :
  stringToBigInt str =
    match toUtf8Bytes str with
    | nil => Throws "SyntaxError" "Cannot convert 0x to a BigInt"
    | _ :: _ => Returns (Z.of_N (bigEndian (toUtf8Bytes str)))
    end.
Proof.
  unfold stringToBigInt. rewrite substring_from_hexlify.
  destruct (toUtf8Bytes str) as [|b rest] eqn:E; [reflexivity|].
  change ("0x" ++ hexBytes (b :: rest))
    with (String "0" (String "x" (hexBytes (b :: rest)))).
  unfold BigInt.
  destruct (hexBytes_nonempty b rest) as (c & s & Hs).
  unfold NilZero.uint_of_string.
  assert (H : NilEmpty.uint_of_string (hexBytes (b :: rest))
              = Some (bytesDigits (b :: rest))) by apply uint_of_hexBytes.
  rewrite Hs in *. rewrite H.
  now rewrite of_hex_uint_bytesDigits.
Qed.

Lemma toUtf8Bytes_nil (str : string) : toUtf8Bytes str = nil <-> str = "".
Proof.
  unfold toUtf8Bytes, list_byte_of_string.
  destruct str; simpl; split; (reflexivity || discriminate).
Qed.

Lemma Buffer_from_hexBytes (bytes : list Byte.byte) :
  Buffer_from_hex (hexBytes bytes) = bytes.
Proof.
  induction bytes as [|b rest IH]; [reflexivity|].
  simpl.
  rewrite !hexVal_hexChar by (apply byte_hi_lt || apply byte_lo_lt).
  rewrite byte_hi_lo, Byte.of_to_N.
  change (String.append EmptyString (hexBytes rest)) with (hexBytes rest).
  rewrite IH. reflexivity.
Qed.

Lemma length_hexBytes_even (bytes : list Byte.byte) :
  Nat.even (String.length (hexBytes bytes)) = true.
Proof. induction bytes as [|b rest IH]; [reflexivity|exact IH]. Qed.

(** The parity test of [bigIntToString]. *)
Lemma odd_length_test (n : nat) :
  negb (Nat.eqb (Nat.modulo n 2) 0) = Nat.odd n.
Proof.
  assert (H : negb (Nat.eqb (Nat.modulo n 2) 0) = Nat.odd n /\
              negb (Nat.eqb (Nat.modulo (S n) 2) 0) = Nat.odd (S n)).
  { induction n as [|n [IH1 IH2]]; [split; reflexivity|].
    split; [exact IH2|].
    replace (S (S n)) with (n + 1 * 2) by lia.
    rewrite Nat.Div0.mod_add, IH1.
    replace (n + 1 * 2) with (S (S n)) by lia. reflexivity. }
  exact (proj1 H).
Qed.

Lemma toString16_of_N (n : N) :
  toString16 (Z.of_N n) = NilZero.string_of_uint (N.to_hex_uint n).
Proof. destruct n; reflexivity. Qed.

Lemma unorm_digitOf (n : N) (d : uint) :
  (n < 16)%N -> n <> 0%N -> unorm (digitOf n d) = digitOf n d.
Proof. intros H Hn. digit_cases n H; (reflexivity || now elim Hn). Qed.

Lemma NilZero_digitOf (n : N) (d : uint) :
  (n < 16)%N ->
  NilZero.string_of_uint (digitOf n d)
    = NilEmpty.string_of_uint (digitOf n d).
Proof. intros H. digit_cases n H; reflexivity. Qed.

Lemma byte_nonzero (b : Byte.byte) :
  b <> Byte.x00 -> Byte.to_N b <> 0%N.
Proof.
  intros Hb E. apply Hb.
  pose proof (Byte.of_to_N b) as H1. rewrite E in H1.
  simpl in H1. congruence.
Qed.

(** What [bigIntToString] decodes after its padding step, for the value of a
    byte sequence that starts with a byte other than zero: the digits
    [hexlify] wrote. *)
Lemma padded_digits (b : Byte.byte) (rest : list Byte.byte) :
  b <> Byte.x00 ->
  let hex := toString16 (Z.of_N (bigEndian (b :: rest))) in
  (if negb (Nat.eqb (Nat.modulo (String.length hex) 2) 0)
   then "0" ++ hex else hex) = hexBytes (b :: rest).
Proof.
  intros Hb hex. subst hex.
  rewrite odd_length_test, toString16_of_N, <- of_hex_uint_bytesDigits.
  rewrite HexadecimalN.Unsigned.to_of.
  pose proof (byte_hi_lt b) as Hh. pose proof (byte_lo_lt b) as Hl.
  pose proof (byte_hi_lo b) as Hhl. apply byte_nonzero in Hb.
  pose proof (length_hexBytes_even rest) as Hev.
  simpl bytesDigits. unfold byteDigits.
  destruct (N.eq_dec (Byte.to_N b / 16)%N 0%N) as [E0|Hn0].
  - (* one digit: an odd length, padded *)
    assert (Hlo : (Byte.to_N b mod 16 <> 0)%N) by lia.
    rewrite E0. change (digitOf 0 ?d) with (D0 d).
    rewrite unorm_D0, unorm_digitOf by assumption.
    rewrite NilZero_digitOf, string_of_digitOf, string_of_bytesDigits
      by assumption.
    simpl String.length. rewrite Nat.odd_succ, Hev.
    simpl. unfold hexByte. rewrite E0. reflexivity.
  - (* two digits: an even length *)
    rewrite unorm_digitOf by assumption.
    rewrite NilZero_digitOf, !string_of_digitOf, string_of_bytesDigits
      by assumption.
    simpl String.length. rewrite Nat.odd_succ, Nat.even_succ.
    unfold Nat.odd. rewrite Hev. reflexivity.
Qed.

(** The round trip on the bytes: a text whose first byte is not zero comes
    back, whatever its length. *)
Lemma roundTrip_firstByteNonZero (t : string) :
  firstByteNonZero t = true -> roundTrip t = Returns t.
Proof.
  unfold firstByteNonZero, roundTrip. rewrite stringToBigInt_bytes.
  destruct (toUtf8Bytes t) as [|b rest] eqn:E; [discriminate|].
  intros Hb. f_equal. unfold bigIntToString.
  assert (Hb' : b <> Byte.x00).
  { intros ->. discriminate Hb. }
  rewrite (padded_digits b rest Hb'), Buffer_from_hexBytes, <- E.
  apply string_of_list_byte_of_string.
Qed.

(** A value is at least its leading part shifted by the bytes that follow. *)
Lemma fold_bytes_lower_bound (bytes : list Byte.byte) (acc : N) :
  (acc * 256 ^ N.of_nat (List.length bytes)
   <= fold_left (fun a b => 256 * a + Byte.to_N b) bytes acc)%N.
Proof.
  revert acc. induction bytes as [|b rest IH]; intros acc.
  - simpl. lia.
  - cbn [fold_left List.length]. rewrite Nat2N.inj_succ, N.pow_succ_r'.
    etransitivity; [|apply IH].
    apply N.le_trans with (256 * acc * 256 ^ N.of_nat (List.length rest))%N;
      [lia|].
    apply N.mul_le_mono_r. lia.
Qed.

Lemma bigEndian_lower_bound (b : Byte.byte) (rest : list Byte.byte) :
  b <> Byte.x00 ->
  (256 ^ N.of_nat (List.length rest) <= bigEndian (b :: rest))%N.
Proof.
  intros Hb. apply byte_nonzero in Hb. unfold bigEndian. cbn [fold_left].
  etransitivity; [|apply fold_bytes_lower_bound].
  rewrite <- (N.mul_1_l (256 ^ _)) at 1.
  apply N.mul_le_mono_r. lia.
Qed.

(** The value of more than four bytes, the first not zero, does not fit 32
    bits. *)
Lemma bigEndian_over_long (str : string) :
  W < byteLength str * 8 ->
  firstByteNonZero str = true ->
  (2 ^ 32 <= Z.of_N (bigEndian (toUtf8Bytes str)))%Z.
Proof.
  unfold W, byteLength, firstByteNonZero.
  destruct (toUtf8Bytes str) as [|b rest]; [discriminate|].
  intros Hlen Hb.
  assert (Hb' : b <> Byte.x00) by (intros ->; discriminate Hb).
  pose proof (bigEndian_lower_bound b rest Hb') as H.
  assert (H4 : (256 ^ 4 <= 256 ^ N.of_nat (List.length rest))%N).
  { apply N.pow_le_mono_r; [discriminate|]. simpl in Hlen. lia. }
  change (2 ^ 32)%Z with (Z.of_N (256 ^ 4)). lia.
Qed.

Lemma stringToBigInt_nonempty (str : string) :
  str <> "" ->
  stringToBigInt str = Returns (Z.of_N (bigEndian (toUtf8Bytes str))).
Proof.
  intros Hne. rewrite stringToBigInt_bytes.
  destruct (toUtf8Bytes str) eqn:E; [|reflexivity].
  apply toUtf8Bytes_nil in E. contradiction.
Qed.

(** C3, as the code has it: a text whose UTF-8 bytes fit the width and whose
    first byte is not zero comes back from [bigIntToString (stringToBigInt t)];
    in particular every text of one to four single-byte characters whose
    first character is not U+0000 does. *)
Theorem C3_round_trip :
  (forall t : string,
     byteLength t * 8 <= W -> firstByteNonZero t = true ->
     roundTrip t = Returns t) /\
  (forall t : string,
     1 <= byteLength t <= 4 -> singleByteChars t = true ->
     firstByteNonZero t = true ->
     roundTrip t = Returns t).
Proof.
  split; intros; now apply roundTrip_firstByteNonZero.
Qed.

End CodecProperties.

Lemma C3_round_trip_witness :
  Codec.roundTrip "ABC" = Returns "ABC".
Proof.
  apply (proj1 C3_round_trip "ABC"); [vm_compute; lia | reflexivity].
Defined.

(** The text of the two single-byte characters U+0000 and "A" encodes to 65,
    which decodes to "A" alone. *)
Lemma C3_leading_nul_counterexample :
  Codec.byteLength (String "000" "A") = 2 /\
  Codec.singleByteChars (String "000" "A") = true /\
  Codec.stringToBigInt (String "000" "A") = Returns 65%Z /\
  Codec.roundTrip (String "000" "A") = Returns "A" /\
  Codec.roundTrip (String "000" "A") <> Returns (String "000" "A").
Proof. repeat split; discriminate. Qed.

(** * Properties of the hook *)

Section HookProperties.

Import Hook.

Lemma length_zeros_append (k : nat) (s : string) :
  String.length (zeros k ++ s) = k + String.length s.
Proof.
  induction k as [|k IH]; [reflexivity|].
  change (zeros (S k) ++ s) with (String "0" (zeros k ++ s)).
  simpl. congruence.
Qed.

Lemma length_padStart0 (n : nat) (s : string) :
  n <= String.length (padStart0 n s).
Proof. unfold padStart0. rewrite length_zeros_append. lia. Qed.

Lemma zeros_append_inv (k n : nat) (s : string) :
  zeros k ++ s = zeros n -> s = zeros (n - k).
Proof.
  revert n. induction k as [|k IH]; intros n H.
  - rewrite Nat.sub_0_r. exact H.
  - change (zeros (S k) ++ s) with (String "0" (zeros k ++ s)) in H.
    destruct n as [|n]; [discriminate H|].
    simpl in H. injection H as H. simpl. now apply IH.
Qed.

(** The digits of a number other than zero do not start with a zero. *)
Lemma string_of_uint_head (d : uint) :
  NilZero.string_of_uint (unorm d) <> EmptyString /\
  (unorm d <> zero ->
   forall rest, NilZero.string_of_uint (unorm d) <> String "0" rest).
Proof.
  pose proof (nzhead_nonzero d) as Hnz. unfold unorm.
  destruct (nzhead d) eqn:E; simpl; split; try discriminate;
    try (intros H; now elim H).
  now elim (Hnz u).
Qed.

Lemma toString16_head (v : N) :
  v <> 0%N ->
  Codec.toString16 (Z.of_N v) <> EmptyString /\
  forall rest, Codec.toString16 (Z.of_N v) <> String "0" rest.
Proof.
  intros Hv. rewrite toString16_of_N.
  assert (E : N.to_hex_uint v = unorm (N.to_hex_uint v)).
  { rewrite <- HexadecimalN.Unsigned.to_of, HexadecimalN.Unsigned.of_to.
    reflexivity. }
  rewrite E. destruct (string_of_uint_head (N.to_hex_uint v)) as [H1 H2].
  split; [assumption|]. apply H2. rewrite <- E. intros Hz.
  apply Hv. rewrite <- (HexadecimalN.Unsigned.of_to v), Hz. reflexivity.
Qed.

(** The text of a handle is the zero hash for the zero handle only. *)
Lemma bytes32ToHex_zero_iff (v : N) :
  bytes32ToHex v = ZeroHash <-> v = 0%N.
Proof.
  split; [|intros ->; reflexivity].
  intros H. destruct (N.eq_dec v 0%N) as [|Hv]; [assumption|exfalso].
  destruct (toString16_head v Hv) as [Hne Hhd].
  assert (H' : String "0" (String "x"
                 (padStart0 64 (Codec.toString16 (Z.of_N v))))
               = String "0" (String "x" (zeros 64))) by exact H.
  clear H. injection H' as H. unfold padStart0 in H.
  apply (zeros_append_inv _ 64) in H.
  destruct (64 - (64 - String.length (Codec.toString16 (Z.of_N v)))).
  - now apply Hne.
  - now apply (Hhd (zeros n)).
Qed.

Lemma bytes32ToHex_long (v : N) :
  truthy (bytes32ToHex v) = true /\
  bytes32ToHex v <> "0x" /\ bytes32ToHex v <> "0x0".
Proof.
  pose proof (length_padStart0 64 (Codec.toString16 (Z.of_N v))) as H.
  unfold bytes32ToHex.
  destruct (padStart0 64 (Codec.toString16 (Z.of_N v))) as [|c [|c' r]];
    simpl in H; try lia.
  repeat split; discriminate.
Qed.

(** On the text of a handle, the hook's flag says that the handle is not the
    zero handle. *)
Lemma hasAnswered_bytes32 (v : N) :
  hasAnswered (Some (bytes32ToHex v)) = negb (N.eqb v 0).
Proof.
  destruct (bytes32ToHex_long v) as (Ht & H1 & H2).
  apply String.eqb_neq in H1, H2.
  unfold hasAnswered. rewrite Ht, H1, H2.
  destruct (N.eqb_spec v 0) as [->|Hv]; [reflexivity|].
  assert (E : String.eqb (bytes32ToHex v) ZeroHash = false).
  { apply String.eqb_neq. intros E. now apply bytes32ToHex_zero_iff in E. }
  rewrite E. reflexivity.
Qed.

Variables Enc Params Tx : Type.
Variable w : World Enc Params Tx.

Lemma truthy_nonempty (s : string) : truthy s = true <-> s <> "".
Proof.
  unfold truthy. destruct (String.eqb_spec s ""); simpl; split;
    congruence.
Qed.

(* Case analysis on every scrutinee of the goal, innermost first. *)
Ltac has_no_match x :=
  tryif (match x with context [match _ with _ => _ end] => idtac end)
  then fail else idtac.

Ltac break_matches :=
  repeat match goal with
         | |- context [match ?x with _ => _ end] =>
             has_no_match x; destruct x eqn:?
         end.

(** The guard: on an empty text, or when the [isProcessing] the callback
    closed over is true, [submitAnswer] returns at once, with the state as it
    was and nothing done. *)
Lemma submitAnswer_guard (text : string) (captured : bool) (st : HookState) :
  text = "" \/ captured = true ->
  submitAnswer w captured text st = (st, []).
Proof.
  intros [->|H]; unfold submitAnswer; [reflexivity|].
  rewrite H, orb_true_r. reflexivity.
Qed.

Lemma submitAnswer_try_state (text : string) (st : HookState) :
  isProcessing (fst (submitAnswer_try w text st)) = isProcessing st /\
  (message (fst (submitAnswer_try w text st))
     = "✅ Quiz submitted successfully!" /\
   refreshAnswer w
     = Returns (encryptedAnswer (fst (submitAnswer_try w text st))) \/
   failureReason (message (fst (submitAnswer_try w text st)))).
Proof.
  unfold submitAnswer_try, getEncryptionMethodFor, failureReason, catch.
  destruct (abi_submitAnswer w) as [internalType|]; [|simpl; auto 10].
  break_matches; simpl; (split; [reflexivity|]); eauto 10.
Qed.

(** No failure reason reads like the success text. *)
Lemma failureReason_not_success (m : string) :
  failureReason m -> m <> "✅ Quiz submitted successfully!".
Proof.
  intros [->|[->|[->|[->|[msg ->]]]]]; discriminate.
Qed.

(** The [try] block ends with the message of the first step that did not
    return a value to go on with. *)
Lemma submitAnswer_try_ends (text : string) (st : HookState) :
  ends w text (message (fst (submitAnswer_try w text st))).
Proof.
  unfold submitAnswer_try.
  destruct (getEncryptionMethodFor w) as [method error] eqn:G.
  assert (Gm : fst (getEncryptionMethodFor w) = method) by now rewrite G.
  assert (Ge : snd (getEncryptionMethodFor w) = error) by now rewrite G.
  destruct method as [method|].
  2:{ cbn. rewrite <- Ge. apply ends_no_method. rewrite Gm. discriminate. }
  destruct (truthy method) eqn:Tm; cbn [negb].
  2:{ cbn. rewrite <- Ge. apply ends_no_method. rewrite Gm.
      intros m [= <-]. exact Tm. }
  assert (Hm : hasMethod w method) by (split; assumption).
  destruct (Codec.stringToBigInt text) as [encoded|name msg] eqn:Hv.
  2:{ cbn. eapply ends_encode_throws; eassumption. }
  destruct (encryptWith w method encoded) as [[enc|]|name msg] eqn:He.
  2:{ cbn. eapply ends_encrypt_undefined; eassumption. }
  2:{ cbn. eapply ends_encrypt_throws; eassumption. }
  assert (Henc : encrypts w text enc) by (exists method, encoded; auto).
  destruct (getContract w write) as [[]|] eqn:Hc.
  2:{ cbn. eapply ends_no_contract; eassumption. }
  destruct (buildParamsFromAbi w enc) as [params|name msg] eqn:Hb.
  2:{ cbn. eapply ends_build_throws; eassumption. }
  assert (Hbuilds : builds w text params) by (exists enc; auto).
  destruct (contract_submitAnswer w params) as [tx|name msg] eqn:Hs.
  2:{ cbn. eapply ends_send_throws; eassumption. }
  assert (Hsends : sends w text tx) by (exists params; auto).
  destruct (tx_wait w tx) as [[]|name msg] eqn:Hw.
  2:{ cbn. eapply ends_wait_throws; eassumption. }
  assert (Hconf : confirms w text) by (exists tx; auto).
  destruct (refreshAnswer w) as [data|name msg] eqn:Hr.
  2:{ cbn. eapply ends_refresh_throws; eassumption. }
  cbn. apply ends_success with (data := data). split; assumption.
Qed.

(* Opens the steps a call went through. *)
Ltac open_steps :=
  repeat match goal with
         | H : succeeds _ _ _ |- _ => destruct H as [? ?]
         | H : confirms _ _ |- _ => destruct H as (? & ? & ?)
         | H : sends _ _ _ |- _ => destruct H as (? & ? & ?)
         | H : builds _ _ _ |- _ => destruct H as (? & ? & ? & ?)
         | H : encrypts _ _ _ |- _ => destruct H as (? & ? & ? & ? & ?)
         | H : hasMethod _ _ |- _ => destruct H as [? ?]
         end.

(** A world and a text have one ending. *)
Lemma ends_functional (text m1 m2 : string) :
  ends w text m1 -> ends w text m2 -> m1 = m2.
Proof.
  intros H1 H2. destruct H1, H2; open_steps;
    try match goal with
        | H : forall method, _ -> truthy method = false,
          H' : fst (getEncryptionMethodFor w) = Some ?m |- _ =>
            specialize (H m H')
        end;
    congruence.
Qed.

Lemma ends_success_inv (text : string) :
  ends w text "✅ Quiz submitted successfully!" ->
  exists data : option string, succeeds w text data.
Proof.
  intros H.
  remember "✅ Quiz submitted successfully!" as m eqn:E.
  destruct H; try discriminate E.
  - exfalso. unfold getEncryptionMethodFor in E.
    destruct (abi_submitAnswer w); cbn in E; discriminate E.
  - eauto.
Qed.

Lemma ends_failureReason (text m : string) :
  ends w text m -> m = "✅ Quiz submitted successfully!" \/ failureReason m.
Proof.
  intros H. unfold failureReason.
  destruct H; eauto 10.
  unfold getEncryptionMethodFor. destruct (abi_submitAnswer w); cbn; auto.
Qed.

(** What a call does outside the state does not depend on the state it is
    called in. *)
Lemma submitAnswer_try_calls (text : string) (st st' : HookState) :
  snd (submitAnswer_try w text st) = snd (submitAnswer_try w text st').
Proof.
  unfold submitAnswer_try. break_matches; reflexivity.
Qed.

Lemma submitAnswer_calls (text : string) (captured : bool)
    (st st' : HookState) :
  snd (submitAnswer w captured text st)
  = snd (submitAnswer w captured text st').
Proof.
  unfold submitAnswer.
  destruct (negb (truthy text) || captured); [reflexivity|].
  cbv zeta.
  set (s1 := setMessage _ (setIsProcessing true st)).
  set (s2 := setMessage _ (setIsProcessing true st')).
  pose proof (submitAnswer_try_calls text s1 s2) as E.
  destruct (submitAnswer_try w text s1), (submitAnswer_try w text s2).
  exact E.
Qed.

(** Past the guard, [submitAnswer] ends with the processing flag cleared and
    the message of the first step that failed, or the success text after a
    read-back that returned. *)
Lemma submitAnswer_past_guard (text : string) (st : HookState) :
  text <> "" ->
  isProcessing (fst (submitAnswer w false text st)) = false /\
  ends w text (message (fst (submitAnswer w false text st))) /\
  (message (fst (submitAnswer w false text st))
     = "✅ Quiz submitted successfully!" ->
   refreshAnswer w
     = Returns (encryptedAnswer (fst (submitAnswer w false text st)))).
Proof.
  intros Ht. apply truthy_nonempty in Ht.
  unfold submitAnswer. rewrite Ht. simpl.
  match goal with
  | |- context [submitAnswer_try w text ?s] =>
      pose proof (submitAnswer_try_state text s) as [_ Hm];
      pose proof (submitAnswer_try_ends text s) as He;
      destruct (submitAnswer_try w text s) as [st' evs]
  end.
  simpl in *. split; [reflexivity|]. split; [exact He|].
  intros E. destruct Hm as [[_ Hm]|Hm]; [exact Hm|].
  now apply failureReason_not_success in Hm.
Qed.

(** The only text [submitAnswer] encodes is its argument, and only past the
    guard. *)
Lemma submitAnswer_try_encodes (text t : string) (st : HookState) :
  In (EvEncode t) (snd (submitAnswer_try w text st)) -> t = text.
Proof.
  unfold submitAnswer_try.
  break_matches; simpl; rewrite ?in_app_iff; simpl;
    intuition congruence.
Qed.

Lemma submitAnswer_encodes (text t : string) (captured : bool)
    (st : HookState) :
  In (EvEncode t) (snd (submitAnswer w captured text st)) ->
  t = text /\ t <> "".
Proof.
  unfold submitAnswer.
  destruct (negb (truthy text) || captured) eqn:G; [intros []|].
  apply orb_false_elim in G as [G _]. apply negb_false_iff in G.
  apply truthy_nonempty in G.
  match goal with
  | |- context [submitAnswer_try w text ?s] =>
      pose proof (submitAnswer_try_encodes text t s) as He;
      destruct (submitAnswer_try w text s) as [st' evs]
  end.
  simpl in *. intros Hin. specialize (He Hin). subst t. auto.
Qed.

(** With an encryption method at hand, the encoded value of the text is what
    [submitAnswer] passes to [encryptWith]. *)
Lemma submitAnswer_encrypts (text method : string) (error : option string)
    (st : HookState) (v : Z) :
  text <> "" ->
  getEncryptionMethodFor w = (Some method, error) ->
  truthy method = true ->
  Codec.stringToBigInt text = Returns v ->
  In (EvEncrypt method v) (snd (submitAnswer w false text st)).
Proof.
  intros Ht Hm Htm Hv. apply truthy_nonempty in Ht.
  unfold submitAnswer. rewrite Ht. simpl.
  unfold submitAnswer_try. rewrite Hm, Htm, Hv. simpl.
  break_matches; simpl; rewrite ?in_app_iff; simpl; auto.
Qed.

(** C8, as the code has it.  The guard of [submitAnswer] reads the text and
    the [isProcessing] value its callback closed over at the render that made
    it: when the text is empty or that value is true, the call returns without
    a word, the state, its message included, as it was and nothing called.
    Otherwise the call runs whatever the state says: it ends with the
    processing flag cleared and with the message [ends] gives, which is the
    failure reason of the first step that did not return a value to go on
    with, and the success text only when every step and the read-back
    returned; what the call does outside the state does not depend on the
    state it is called in.  A world and a text have one ending, and a failure
    reason never reads like the success text. *)
Theorem C8_guard_then_outcome (text : string) (captured : bool)
    (st : HookState) :
  (text = "" \/ captured = true ->
   submitAnswer w captured text st = (st, [])) /\
  (text <> "" -> captured = false ->
   isProcessing (fst (submitAnswer w captured text st)) = false /\
   ends w text (message (fst (submitAnswer w captured text st))) /\
   (message (fst (submitAnswer w captured text st))
      = "✅ Quiz submitted successfully!" ->
    refreshAnswer w
      = Returns (encryptedAnswer (fst (submitAnswer w captured text st))))) /\
  (forall st' : HookState,
     snd (submitAnswer w captured text st')
     = snd (submitAnswer w captured text st)) /\
  (forall m1 m2 : string, ends w text m1 -> ends w text m2 -> m1 = m2) /\
  (ends w text "✅ Quiz submitted successfully!" <->
   exists data : option string, succeeds w text data) /\
  (forall m : string,
     ends w text m ->
     m = "✅ Quiz submitted successfully!" \/ failureReason m) /\
  (forall m : string,
     failureReason m -> m <> "✅ Quiz submitted successfully!").
Proof.
  split; [apply submitAnswer_guard|].
  split; [intros Ht ->; now apply submitAnswer_past_guard|].
  split; [intros st'; apply submitAnswer_calls|].
  split; [apply ends_functional|].
  split; [split; [apply ends_success_inv|]|].
  - intros [data H]. now apply ends_success with (data := data).
  - split; [apply ends_failureReason|apply failureReason_not_success].
Qed.

(** C9: [stringToBigInt] of the empty text throws a SyntaxError, the one
    [BigInt] raises on "0x".  The empty text is the only way to that error:
    for any bytes but none, the text [BigInt] is given has digits and
    [BigInt] returns their value.  The hook returns before encoding an empty
    text, so the text it encodes is never empty. *)
Theorem C9_empty_text_throws :
  Codec.stringToBigInt "" = Throws "SyntaxError" "Cannot convert 0x to a BigInt" /\
  Codec.BigInt "0x" = Throws "SyntaxError" "Cannot convert 0x to a BigInt" /\
  (forall bytes : list Byte.byte,
     bytes <> nil ->
     Codec.BigInt ("0x" ++ Codec.substring_from 2 (Codec.hexlify bytes))
     = Returns (Z.of_N (Codec.bigEndian bytes))) /\
  (forall (captured : bool) (st : HookState),
     submitAnswer w captured "" st = (st, [])) /\
  (forall (text t : string) (captured : bool) (st : HookState),
     In (EvEncode t) (snd (submitAnswer w captured text st)) -> t <> "").
Proof.
  repeat split.
  - intros bytes Hne. now apply BigInt_of_bytes.
  - intros text t captured st Hin. now apply submitAnswer_encodes in Hin.
Qed.

(** C2, as the code has it: [stringToBigInt] checks no length.  On a text of
    more than [W] bits it returns the big-endian value of the bytes, which
    does not fit 32 bits when the first byte is not zero, and the hook hands
    that value to [encryptWith]. *)
Theorem C2_no_length_check (str : string) :
  Codec.W < Codec.byteLength str * 8 ->
  Codec.stringToBigInt str
    = Returns (Z.of_N (Codec.bigEndian (Codec.toUtf8Bytes str))) /\
  (Codec.firstByteNonZero str = true ->
   (2 ^ 32 <= Z.of_N (Codec.bigEndian (Codec.toUtf8Bytes str)))%Z) /\
  (forall (st : HookState) (method : string) (error : option string),
     getEncryptionMethodFor w = (Some method, error) ->
     truthy method = true ->
     In (EvEncrypt method (Z.of_N (Codec.bigEndian (Codec.toUtf8Bytes str))))
        (snd (submitAnswer w false str st))).
Proof.
  intros Hlen.
  assert (Hne : str <> "") by (intros ->; vm_compute in Hlen; lia).
  pose proof (stringToBigInt_nonempty str Hne) as Hv.
  split; [exact Hv|]. split.
  - now apply bigEndian_over_long.
  - intros st method error Hm Ht.
    now apply (submitAnswer_encrypts str method error).
Qed.

End HookProperties.

Lemma C8_guard_then_outcome_witness :
  Hook.isProcessing
    (fst (Hook.submitAnswer Hook.sampleWorld false "ABC" Hook.initialState))
  = false /\
  Hook.ends Hook.sampleWorld "ABC"
    (Hook.message
       (fst (Hook.submitAnswer Hook.sampleWorld false "ABC"
               Hook.initialState))).
Proof.
  assert (Hne : "ABC" <> "") by discriminate.
  destruct (proj1 (proj2 (C8_guard_then_outcome unit unit unit
                            Hook.sampleWorld "ABC" false Hook.initialState))
              Hne eq_refl) as (Hp & He & _).
  exact (conj Hp He).
Defined.

(** An empty text, and a text given to a callback that closed over a true
    [isProcessing], leave the message as it was: no failure reason is
    recorded.  The callback made at the render of the initial state, called
    again while its first call is in flight and the state says so, passes the
    guard and sends a second transaction. *)
Lemma C8_no_reason_counterexample :
  Hook.submitAnswer Hook.sampleWorld false "" Hook.initialState
    = (Hook.initialState, []) /\
  Hook.message
    (fst (Hook.submitAnswer Hook.sampleWorld false "" Hook.initialState))
    = "" /\
  Hook.message
    (fst (Hook.submitAnswer_at_render Hook.sampleWorld
            (Hook.mkHookState "busy" true None) "ABC"
            (Hook.mkHookState "busy" true None))) = "busy" /\
  Hook.isProcessing (Hook.setIsProcessing true Hook.initialState) = true /\
  snd (Hook.submitAnswer_at_render Hook.sampleWorld Hook.initialState "ABC"
         (Hook.setIsProcessing true Hook.initialState))
  = [Hook.EvEncode "ABC"; Hook.EvEncrypt "add32" 4276803; Hook.EvSend;
     Hook.EvWait; Hook.EvRefresh].
Proof. repeat split. Qed.

Lemma C9_empty_text_throws_witness :
  Codec.BigInt ("0x" ++ Codec.substring_from 2 (Codec.hexlify [Byte.x41]))
  = Returns 65%Z.
Proof.
  apply (proj1 (proj2 (proj2
           (C9_empty_text_throws unit unit unit Hook.sampleWorld)))
           [Byte.x41]).
  discriminate.
Defined.

Lemma C2_no_length_check_witness :
  Codec.stringToBigInt "ABCDE"
    = Returns (Z.of_N (Codec.bigEndian (Codec.toUtf8Bytes "ABCDE"))).
Proof.
  apply (C2_no_length_check unit unit unit Hook.sampleWorld "ABCDE").
  vm_compute. lia.
Defined.

(** Five bytes are encoded like any text: a value, no error. *)
Lemma C2_over_long_counterexample :
  Codec.W < Codec.byteLength "ABCDE" * 8 /\
  Codec.stringToBigInt "ABCDE" = Returns 280284578885%Z.
Proof. split; [vm_compute; lia|reflexivity]. Qed.

(** * The hook's flag and the store's *)

(** C10: the hook's [hasAnswered] is computed from the handle the
    [getEncryptedAnswer] read returned and nothing else: it is true exactly
    when there is such a handle and its text is neither the zero hash nor
    "0x" nor "0x0".  In a state where every flag is set exactly when the
    handle is present, it is the value the store's [hasAnswered] returns. *)
Theorem C10_client_flag_agrees :
  (forall h : option N,
     Hook.hasAnswered (option_map Hook.bytes32ToHex h) = true <->
     exists v : N,
       h = Some v /\ Hook.bytes32ToHex v <> Hook.ZeroHash /\
       Hook.bytes32ToHex v <> "0x" /\ Hook.bytes32ToHex v <> "0x0") /\
  (forall (s : Store.State) (u : N),
     Store.consistent s ->
     option_map (fun v => Hook.hasAnswered (Some (Hook.bytes32ToHex v)))
       (Store.returns (Store.getEncryptedAnswer u) s)
     = Store.returns (Store.hasAnswered u) s).
Proof.
  split.
  - intros [v|]; cbn [option_map].
    + rewrite hasAnswered_bytes32.
      destruct (bytes32ToHex_long v) as (_ & H1 & H2). split.
      * intros H. exists v. repeat split; try assumption.
        intros E. apply bytes32ToHex_zero_iff in E. subst v. discriminate H.
      * intros (v' & [= <-] & Hz & _).
        destruct (N.eqb_spec v 0) as [->|]; [now elim Hz|reflexivity].
    + split; [discriminate|]. intros (v & Hv & _). discriminate Hv.
  - intros s u Hc. specialize (Hc u). revert Hc.
    rewrite returns_getEncryptedAnswer, returns_hasAnswered.
    unfold Store.zeroHandle. cbn [option_map].
    rewrite hasAnswered_bytes32.
    destruct (default false (Store._hasAnswered s !! u));
      destruct (N.eqb_spec (default 0%N (Store._userAnswer s !! u)) 0)
        as [E|E]; simpl; intros [H1 H2]; try reflexivity.
    + exfalso. apply H1; [reflexivity|]. now rewrite E.
    + assert (Some false = Some true); [|discriminate].
      apply H2. congruence.
Qed.

Lemma C10_client_flag_agrees_witness :
  option_map (fun v => Hook.hasAnswered (Some (Hook.bytes32ToHex v)))
    (Store.returns (Store.getEncryptedAnswer 1)
       (Store.execs 7 Store.sampleVerify Store.init
          [Store.CallSubmitAnswer 1 5 [Byte.x01]]))
  = Store.returns (Store.hasAnswered 1)
      (Store.execs 7 Store.sampleVerify Store.init
         [Store.CallSubmitAnswer 1 5 [Byte.x01]]).
Proof.
  apply (proj2 C10_client_flag_agrees).
  apply (consistent_execs 7 Store.sampleVerify (sampleVerify_nonzero 7)).
  apply consistent_init.
Defined.

(** * Further properties of the codec *)

Section CodecFurther.

Import Codec.

Lemma fold_bytes_upper_bound (bytes : list Byte.byte) (acc : N) :
  (fold_left (fun a b => 256 * a + Byte.to_N b) bytes acc
   < (acc + 1) * 256 ^ N.of_nat (List.length bytes))%N.
Proof.
  revert acc. induction bytes as [|b rest IH]; intros acc.
  - simpl. lia.
  - cbn [fold_left List.length]. rewrite Nat2N.inj_succ, N.pow_succ_r'.
    eapply N.lt_le_trans; [apply IH|].
    pose proof (Byte.to_N_bounded b).
    rewrite N.mul_assoc. apply N.mul_le_mono_r. lia.
Qed.

Lemma bigEndian_upper_bound (bytes : list Byte.byte) :
  (bigEndian bytes < 256 ^ N.of_nat (List.length bytes))%N.
Proof.
  pose proof (fold_bytes_upper_bound bytes 0) as H.
  rewrite N.add_0_l, N.mul_1_l in H. exact H.
Qed.

Lemma pow_256_2 (n : N) : (256 ^ n = 2 ^ (8 * n))%N.
Proof. rewrite N.pow_mul_r. reflexivity. Qed.

Lemma stringToBigInt_returns (t : string) (v : Z) :
  stringToBigInt t = Returns v ->
  t <> "" /\ v = Z.of_N (bigEndian (toUtf8Bytes t)).
Proof.
  rewrite stringToBigInt_bytes.
  destruct (toUtf8Bytes t) eqn:E; [discriminate|].
  intros [= <-]. split; [|reflexivity].
  intros ->. discriminate E.
Qed.

(** X1: the value [stringToBigInt] returns is not negative and has no more
    bits than the text has in UTF-8; for a text of at most four bytes it fits
    the 32-bit slot. *)
Theorem X1_encoded_value_width (t : string) (v : Z) :
  stringToBigInt t = Returns v ->
  (0 <= v < 2 ^ (8 * Z.of_nat (byteLength t)))%Z /\
  (byteLength t * 8 <= W -> (v < 2 ^ 32)%Z).
Proof.
  intros Hv. apply stringToBigInt_returns in Hv as [_ ->].
  pose proof (bigEndian_upper_bound (toUtf8Bytes t)) as H.
  rewrite pow_256_2 in H. fold (byteLength t) in H.
  assert (Hz : (Z.of_N (bigEndian (toUtf8Bytes t))
                < 2 ^ (8 * Z.of_nat (byteLength t)))%Z).
  { apply N2Z.inj_lt in H. rewrite N2Z.inj_pow, N2Z.inj_mul in H.
    rewrite nat_N_Z in H. exact H. }
  split; [lia|]. unfold W. intros Hlen.
  eapply Z.lt_le_trans; [exact Hz|].
  apply Z.pow_le_mono_r; lia.
Qed.

(** X2: two texts, each with a first byte other than zero, that
    [stringToBigInt] maps to the same value are the same text. *)
Theorem X2_encoding_injective (t1 t2 : string) (v : Z) :
  firstByteNonZero t1 = true -> firstByteNonZero t2 = true ->
  stringToBigInt t1 = Returns v -> stringToBigInt t2 = Returns v ->
  t1 = t2.
Proof.
  intros H1 H2 E1 E2.
  apply roundTrip_firstByteNonZero in H1, H2.
  unfold roundTrip in H1, H2. rewrite E1 in H1. rewrite E2 in H2.
  congruence.
Qed.

(** The decoding of the value of a byte sequence whose first byte is not
    zero is the text of that sequence. *)
Lemma bigIntToString_bigEndian (b : Byte.byte) (rest : list Byte.byte) :
  b <> Byte.x00 ->
  bigIntToString (Z.of_N (bigEndian (b :: rest))) = toString_utf8 (b :: rest).
Proof.
  intros Hb. unfold bigIntToString.
  rewrite (padded_digits b rest Hb), Buffer_from_hexBytes. reflexivity.
Qed.

Lemma bigEndian_zero_byte (rest : list Byte.byte) :
  bigEndian (Byte.x00 :: rest) = bigEndian rest.
Proof. reflexivity. Qed.

Lemma bigEndian_stripZeroBytes (bytes : list Byte.byte) :
  bigEndian (stripZeroBytes bytes) = bigEndian bytes.
Proof.
  induction bytes as [|b rest IH]; [reflexivity|].
  cbn [stripZeroBytes]. destruct (Byte.eqb b Byte.x00) eqn:E; [|reflexivity].
  apply Byte.byte_dec_bl in E. subst b.
  destruct rest as [|b' rest']; [reflexivity|].
  rewrite IH. symmetry. apply bigEndian_zero_byte.
Qed.

Lemma stripZeroBytes_shape (b : Byte.byte) (rest : list Byte.byte) :
  stripZeroBytes (b :: rest) = [Byte.x00] \/
  exists b' rest', stripZeroBytes (b :: rest) = b' :: rest' /\ b' <> Byte.x00.
Proof.
  revert b. induction rest as [|c rest IH]; intros b; cbn [stripZeroBytes];
    destruct (Byte.eqb b Byte.x00) eqn:E.
  - apply Byte.byte_dec_bl in E. subst b. auto.
  - right. exists b, nil. split; [reflexivity|].
    intros ->. discriminate E.
  - apply IH.
  - right. exists b, (c :: rest). split; [reflexivity|].
    intros ->. discriminate E.
Qed.

(** X3: decoding what [stringToBigInt] returned gives the text without its
    leading zero bytes, a text of zero bytes only coming back as one zero
    byte: the leading zero bytes are lost and nothing else is. *)
Theorem X3_leading_zero_bytes_dropped (t : string) :
  t <> "" ->
  roundTrip t = Returns (toString_utf8 (stripZeroBytes (toUtf8Bytes t))).
Proof.
  intros Hne. unfold roundTrip. rewrite (stringToBigInt_nonempty t Hne).
  f_equal. rewrite <- bigEndian_stripZeroBytes.
  destruct (toUtf8Bytes t) as [|b rest] eqn:E.
  - apply toUtf8Bytes_nil in E. contradiction.
  - destruct (stripZeroBytes_shape b rest) as [->|(b' & rest' & -> & Hb)].
    + reflexivity.
    + now apply bigIntToString_bigEndian.
Qed.

Lemma Buffer_from_hex_minus (c : ascii) (s : string) :
  Buffer_from_hex (String "-" (String c s)) = nil /\
  Buffer_from_hex (String c (String "-" s)) = nil.
Proof.
  split; cbn [Buffer_from_hex].
  - reflexivity.
  - change (hexVal "-") with (@None N). destruct (hexVal c); reflexivity.
Qed.

(** X5: a negative value decodes to the empty text: its digits start with a
    minus sign, at which the hex decoder stops. *)
Theorem X5_negative_decodes_empty (bn : Z) :
  (bn < 0)%Z -> bigIntToString bn = "".
Proof.
  intros Hneg. destruct bn as [|p|p]; try lia.
  unfold bigIntToString. cbn [toString16].
  set (digits := NilZero.string_of_uint (N.to_hex_uint (N.pos p))).
  rewrite odd_length_test.
  destruct (Nat.odd (String.length (String "-" digits))) eqn:Hodd.
  - change ("0" ++ String "-" digits) with (String "0" (String "-" digits)).
    rewrite (proj2 (Buffer_from_hex_minus "0" digits)). reflexivity.
  - destruct digits as [|c r]; [discriminate Hodd|].
    rewrite (proj1 (Buffer_from_hex_minus c r)). reflexivity.
Qed.

Lemma hexString_of_uint (d : uint) : hexString (NilEmpty.string_of_uint d).
Proof.
  induction d; simpl; [exact I|..]; (split; [|assumption]).
  - exists 0%N. split; [lia|reflexivity].
  - exists 1%N. split; [lia|reflexivity].
  - exists 2%N. split; [lia|reflexivity].
  - exists 3%N. split; [lia|reflexivity].
  - exists 4%N. split; [lia|reflexivity].
  - exists 5%N. split; [lia|reflexivity].
  - exists 6%N. split; [lia|reflexivity].
  - exists 7%N. split; [lia|reflexivity].
  - exists 8%N. split; [lia|reflexivity].
  - exists 9%N. split; [lia|reflexivity].
  - exists 10%N. split; [lia|reflexivity].
  - exists 11%N. split; [lia|reflexivity].
  - exists 12%N. split; [lia|reflexivity].
  - exists 13%N. split; [lia|reflexivity].
  - exists 14%N. split; [lia|reflexivity].
  - exists 15%N. split; [lia|reflexivity].
Qed.

(** Two digits are the digits of one byte. *)
Lemma byte_of_digits (h l : N) :
  (h < 16)%N -> (l < 16)%N ->
  exists b : Byte.byte,
    Byte.of_N (16 * h + l) = Some b /\
    hexByte b = String (hexChar h) (String (hexChar l) EmptyString).
Proof.
  intros Hh Hl.
  destruct (Byte.of_N (16 * h + l)) as [b|] eqn:E.
  - exists b. split; [reflexivity|].
    apply Byte.to_of_N in E. unfold hexByte. rewrite E.
    replace ((16 * h + l) / 16)%N with h
      by (apply (N.div_unique _ 16 h l); lia).
    replace ((16 * h + l) mod 16)%N with l
      by (apply (N.mod_unique _ 16 h l); lia).
    reflexivity.
  - apply Byte.of_N_None_iff in E. lia.
Qed.

(** The hex decoder reads back every string of an even number of lower-case
    digits in full. *)
Lemma hexBytes_Buffer_from_hex (n : nat) (s : string) :
  String.length s <= n -> hexString s ->
  Nat.even (String.length s) = true ->
  hexBytes (Buffer_from_hex s) = s.
Proof.
  revert s. induction n as [|n IH]; intros s Hlen Hs Hev.
  - destruct s; [reflexivity|simpl in Hlen; lia].
  - destruct s as [|c1 [|c2 r]]; [reflexivity|discriminate Hev|].
    destruct Hs as [(h & Hh & ->) [(l & Hl & ->) Hr]].
    destruct (byte_of_digits h l Hh Hl) as (b & Hb & Hhex).
    cbn [Buffer_from_hex]. rewrite !hexVal_hexChar, Hb by assumption.
    cbn [hexBytes]. rewrite Hhex.
    change (String (hexChar h) (String (hexChar l) EmptyString)
            ++ hexBytes (Buffer_from_hex r))
      with (String (hexChar h) (String (hexChar l)
              (hexBytes (Buffer_from_hex r)))).
    rewrite IH; [reflexivity| |assumption|exact Hev].
    simpl in Hlen. lia.
Qed.

Lemma to_hex_uint_nonnil (n : N) : N.to_hex_uint n <> Nil.
Proof.
  destruct n; [discriminate|].
  apply HexadecimalPos.Unsigned.to_uint_nonnil.
Qed.

(** The bytes [bigIntToString] decodes for a value that is not negative are
    some, and they denote that value. *)
Lemma decoded_bytes (n : N) :
  let hex := toString16 (Z.of_N n) in
  let bytes :=
    Buffer_from_hex
      (if negb (Nat.eqb (Nat.modulo (String.length hex) 2) 0)
       then "0" ++ hex else hex) in
  bytes <> nil /\ bigEndian bytes = n.
Proof.
  intros hex bytes. subst hex bytes.
  rewrite odd_length_test, toString16_of_N.
  set (d := N.to_hex_uint n).
  assert (Hd : NilZero.string_of_uint d = NilEmpty.string_of_uint d).
  { pose proof (to_hex_uint_nonnil n). fold d in H. now destruct d. }
  rewrite Hd.
  assert (Hgen : exists d' : uint,
            (if Nat.odd (String.length (NilEmpty.string_of_uint d))
             then "0" ++ NilEmpty.string_of_uint d
             else NilEmpty.string_of_uint d) = NilEmpty.string_of_uint d' /\
            N.of_hex_uint d' = n /\ d' <> Nil /\
            Nat.even (String.length (NilEmpty.string_of_uint d')) = true).
  { destruct (Nat.odd (String.length (NilEmpty.string_of_uint d))) eqn:Ho.
    - exists (D0 d). split; [reflexivity|]. split; [|split].
      + apply HexadecimalN.Unsigned.of_to.
      + discriminate.
      + cbn [NilEmpty.string_of_uint String.length].
        rewrite Nat.even_succ. exact Ho.
    - exists d. split; [reflexivity|]. split; [|split].
      + apply HexadecimalN.Unsigned.of_to.
      + apply to_hex_uint_nonnil.
      + unfold Nat.odd in Ho. now apply negb_false_iff in Ho. }
  destruct Hgen as (d' & -> & Hv & Hnn & Hev).
  pose proof (hexBytes_Buffer_from_hex _ _ (Nat.le_refl _)
                (hexString_of_uint d') Hev) as Hback.
  split.
  - intros E. rewrite E in Hback. simpl in Hback.
    destruct d'; try discriminate Hback. now elim Hnn.
  - rewrite <- of_hex_uint_bytesDigits.
    pose proof (uint_of_hexBytes (Buffer_from_hex (NilEmpty.string_of_uint d')))
      as Hu.
    rewrite Hback, NilEmpty.usu in Hu. injection Hu as <-. exact Hv.
Qed.

(** X4: encoding what [bigIntToString] decoded gives the value back, for
    every value that is not negative and decodes to single-byte characters
    (other byte sequences need not be well-formed UTF-8). *)
Theorem X4_decode_then_encode (bn : Z) :
  (0 <= bn)%Z ->
  singleByteChars (bigIntToString bn) = true ->
  stringToBigInt (bigIntToString bn) = Returns bn.
Proof.
  intros Hpos _.
  pose proof (decoded_bytes (Z.to_N bn)) as H. cbv zeta in H.
  rewrite (Z2N.id bn Hpos) in H. destruct H as [Hne Hval].
  rewrite stringToBigInt_bytes.
  unfold bigIntToString, toUtf8Bytes, toString_utf8. cbv zeta.
  rewrite list_byte_of_string_of_list_byte.
  set (bs := Buffer_from_hex _) in *.
  destruct bs; [now elim Hne|].
  rewrite Hval, (Z2N.id bn Hpos). reflexivity.
Qed.

End CodecFurther.

Lemma X1_encoded_value_width_witness :
  (0 <= 4276803 < 2 ^ (8 * Z.of_nat (Codec.byteLength "ABC")))%Z.
Proof.
  apply (X1_encoded_value_width "ABC" 4276803 eq_refl).
Defined.

Lemma X2_encoding_injective_witness : "ABC" = "ABC".
Proof.
  apply (X2_encoding_injective "ABC" "ABC" 4276803); reflexivity.
Defined.

Lemma X3_leading_zero_bytes_dropped_witness :
  Codec.roundTrip (String "000" (String "000" "AB")) = Returns "AB".
Proof.
  apply (X3_leading_zero_bytes_dropped (String "000" (String "000" "AB"))).
  discriminate.
Defined.

Lemma X5_negative_decodes_empty_witness : Codec.bigIntToString (-255) = "".
Proof. apply (X5_negative_decodes_empty (-255)). reflexivity. Defined.

Lemma X4_decode_then_encode_witness :
  Codec.stringToBigInt (Codec.bigIntToString 4276803) = Returns 4276803%Z.
Proof.
  apply (X4_decode_then_encode 4276803); [lia|reflexivity].
Defined.

(** * Further properties of the store *)

Section StoreFurther.

Import Store.

Variable this : N.
Variable verify : N -> N -> N -> list Byte.byte -> option N.

Local Abbreviation submitAnswer := (Store.submitAnswer this verify).
Local Abbreviation exec := (Store.exec this verify).
Local Abbreviation execs := (Store.execs this verify).
Local Abbreviation successes := (Store.successes this verify).

Local Abbreviation flag s u := (default false (_hasAnswered s !! u)).
Local Abbreviation handle s u := (default 0%N (_userAnswer s !! u)).

Lemma returns_submitAnswer (s : State) (u h : N) (p : list Byte.byte) :
  returns (submitAnswer u h p) s =
    if flag s u then None
    else match verify this u h p with Some _ => Some tt | None => None end.
Proof.
  unfold returns. rewrite (submitAnswer_unfold this verify).
  destruct (default false (_hasAnswered s !! u)); [reflexivity|].
  destruct (verify this u h p); reflexivity.
Qed.

Lemma successes_flag_set (cs : list Call) (s : State) (u : N) :
  flag s u = true -> successes s cs u = 0.
Proof.
  revert s. induction cs as [|c cs IH]; intros s Hf; [reflexivity|].
  cbn [Store.successes].
  rewrite (IH _ (proj1 (exec_keeps_record this verify s c u Hf))).
  destruct c as [w h p| |]; try reflexivity.
  destruct (N.eqb_spec w u) as [->|]; [|reflexivity].
  rewrite returns_submitAnswer, Hf. reflexivity.
Qed.

Lemma successes_flag_clear (cs : list Call) (s : State) (u : N) :
  flag s u = false ->
  successes s cs u <= 1 /\
  (flag (execs s cs) u = true <-> successes s cs u = 1).
Proof.
  revert s. induction cs as [|c cs IH]; intros s Hf.
  - simpl. rewrite Hf. split; [lia|]. split; [discriminate|lia].
  - cbn [Store.successes Store.execs fold_left].
    destruct (flag (exec s c) u) eqn:Hf'.
    + (* this call set the flag: it is a returning submitAnswer of u *)
      destruct (exec_flag_inv this verify s c u Hf') as [H|(h & p & -> & Hr)];
        [congruence|].
      rewrite N.eqb_refl, Hr, (successes_flag_set cs _ u Hf').
      split; [lia|]. split; [reflexivity|]. intros _.
      apply (execs_keeps_record this verify cs _ u Hf').
    + destruct (IH _ Hf') as [IH1 IH2].
      assert (H0 : match c with
                   | CallSubmitAnswer w h p =>
                       if N.eqb w u
                       then match returns (submitAnswer w h p) s with
                            | Some _ => 1
                            | None => 0
                            end
                       else 0
                   | _ => 0
                   end = 0).
      { destruct c as [w h p| |]; try reflexivity.
        destruct (N.eqb_spec w u) as [->|]; [|reflexivity].
        destruct (returns (submitAnswer u h p) s) as [[]|] eqn:Hr;
          [|reflexivity].
        exfalso.
        assert (flag (exec s (CallSubmitAnswer u h p)) u = true);
          [|congruence].
        apply (execs_flag_iff this verify [CallSubmitAnswer u h p] s u).
        right. left. exists h, p. auto. }
      rewrite H0. exact (conj IH1 IH2).
Qed.

(** X6: in every sequence of calls of a fresh contract, at most one
    [submitAnswer] of an identity returns, and one did exactly when
    [hasAnswered] of that identity is true afterwards. *)
Theorem X6_one_submission_per_identity (cs : list Call) (u : N) :
  successes init cs u <= 1 /\
  (hasAnswered u (execs init cs) = Ok (true, execs init cs) <->
   successes init cs u = 1).
Proof.
  destruct (successes_flag_clear cs init u eq_refl) as [H1 H2].
  split; [exact H1|]. rewrite <- H2.
  unfold hasAnswered, read_hasAnswered. split.
  - intros [= E]. exact E.
  - intros E. rewrite E. reflexivity.
Qed.

(** X10: whatever calls were made, an identity none of whose [submitAnswer]
    calls has returned can still submit: its [submitAnswer] with an input
    that verifies returns and stores the verified handle. *)
Theorem X10_submission_not_blockable (cs : list Call) (u h : N)
    (p : list Byte.byte) (v : N) :
  ~ Store.submitted_in this verify init cs u ->
  verify this u h p = Some v ->
  exists s' : State,
    submitAnswer u h p (execs init cs) = Ok (tt, s') /\
    hasAnswered u s' = Ok (true, s') /\
    getEncryptedAnswer u s' = Ok (v, s').
Proof.
  intros Hn Hv.
  assert (Hf : flag (execs init cs) u = false).
  { destruct (flag (execs init cs) u) eqn:E; [|reflexivity].
    apply (execs_flag_iff this verify) in E.
    destruct E as [E|E]; [discriminate E|contradiction]. }
  rewrite (submitAnswer_unfold this verify), Hf, Hv.
  eexists. split; [reflexivity|].
  unfold hasAnswered, read_hasAnswered, getEncryptedAnswer, read_userAnswer.
  simpl. rewrite !lookup_insert_eq. split; reflexivity.
Qed.

Lemma acl_covers_exec (s : State) (c : Call) :
  acl_covers this s -> acl_covers this (exec s c).
Proof.
  intros Hs. destruct c as [w h p| |]; simpl; auto.
  unfold commit. rewrite (submitAnswer_unfold this verify).
  destruct (flag s w) eqn:Hw; [assumption|].
  destruct (verify this w h p) as [v|]; [|assumption].
  intros u; simpl. destruct (decide (w = u)) as [->|Hne].
  - rewrite !lookup_insert_eq. simpl. intros _. set_solver.
  - rewrite !lookup_insert_ne by assumption. intros Hu.
    destruct (Hs u Hu). set_solver.
Qed.

Lemma acl_owned_exec (s : State) (c : Call) :
  acl_owned this s -> acl_owned this (exec s c).
Proof.
  intros Hs. destruct c as [w h p| |]; simpl; auto.
  unfold commit. rewrite (submitAnswer_unfold this verify).
  destruct (flag s w) eqn:Hw; [assumption|].
  destruct (verify this w h p) as [v|]; [|assumption].
  intros x a; simpl. rewrite !elem_of_union, !elem_of_singleton.
  intros [E|[E|Hin]].
  - injection E as -> ->. exists w. rewrite !lookup_insert_eq. auto.
  - injection E as -> ->. exists w. rewrite !lookup_insert_eq. auto.
  - destruct (Hs x a Hin) as (u & Hu & Hh & Ha). exists u.
    assert (w <> u) by (intros ->; congruence).
    rewrite !lookup_insert_ne by assumption. auto.
Qed.

Lemma acl_invariants (cs : list Call) (s : State) :
  acl_covers this s /\ acl_owned this s ->
  acl_covers this (execs s cs) /\ acl_owned this (execs s cs).
Proof.
  revert s. induction cs as [|c cs IH]; intros s [H1 H2]; simpl; [auto|].
  apply IH. split; [apply acl_covers_exec|apply acl_owned_exec]; assumption.
Qed.

Lemma acl_invariants_init : acl_covers this init /\ acl_owned this init.
Proof.
  split.
  - intros u. simpl. rewrite lookup_empty. discriminate.
  - intros h a. simpl. set_solver.
Qed.

(** X7: after any calls of a fresh contract, every identity for which
    [hasAnswered] is true is allowed to decrypt the handle
    [getEncryptedAnswer] returns for it, and so is the contract. *)
Theorem X7_submitter_may_decrypt (cs : list Call) (u : N) :
  hasAnswered u (execs init cs) = Ok (true, execs init cs) ->
  exists h : N,
    getEncryptedAnswer u (execs init cs) = Ok (h, execs init cs) /\
    (h, u) ∈ acl (execs init cs) /\ (h, this) ∈ acl (execs init cs).
Proof.
  intros [= Hf].
  destruct (acl_invariants cs init acl_invariants_init) as [Hc _].
  eexists. split; [reflexivity|]. exact (Hc u Hf).
Qed.

(** X8: after any calls of a fresh contract, a permission on a handle held
    by an identity other than the contract is held by an identity that has
    submitted, on the handle stored for that very identity; a permission held
    by the contract is on the handle stored for some identity that has
    submitted.  When the library never returns one handle for two different
    senders, no identity holds a permission on the handle stored for another
    identity. *)
Theorem X8_permissions_follow_storage (cs : list Call) (h a : N) :
  (h, a) ∈ acl (execs init cs) ->
  (a <> this ->
   hasAnswered a (execs init cs) = Ok (true, execs init cs) /\
   getEncryptedAnswer a (execs init cs) = Ok (h, execs init cs)) /\
  (a = this ->
   exists u : N,
     hasAnswered u (execs init cs) = Ok (true, execs init cs) /\
     getEncryptedAnswer u (execs init cs) = Ok (h, execs init cs)) /\
  ((forall (u u' x x' : N) (p p' : list Byte.byte) (v : N),
      verify this u x p = Some v -> verify this u' x' p' = Some v ->
      u = u') ->
   a <> this ->
   forall u : N,
     u <> a ->
     hasAnswered u (execs init cs) = Ok (true, execs init cs) ->
     getEncryptedAnswer u (execs init cs) <> Ok (h, execs init cs)).
Proof.
  intros Hin.
  destruct (acl_invariants cs init acl_invariants_init) as [_ Ho].
  destruct (Ho h a Hin) as (u & Hf & Hh & Ha).
  assert (Hown : a <> this -> flag (execs init cs) a = true /\
                               handle (execs init cs) a = h).
  { intros Hne. destruct Ha as [->| ->]; [auto|now elim Hne]. }
  unfold hasAnswered, read_hasAnswered, getEncryptedAnswer, read_userAnswer.
  split; [|split].
  - intros Hne. destruct (Hown Hne) as [Hfa Hha]. rewrite Hfa, Hha. auto.
  - intros ->. exists u. rewrite Hf, Hh. auto.
  - intros Hinj Hne u' Hu' [= Hf'] [= Hh'].
    destruct (Hown Hne) as [Hfa Hha].
    pose proof (stored_is_verified_execs this verify cs init
                  (stored_is_verified_init this verify)) as Hv.
    destruct (Hv a) as (x & p & Hx);
      [rewrite returns_hasAnswered; congruence|].
    destruct (Hv u') as (x' & p' & Hx');
      [rewrite returns_hasAnswered; congruence|].
    rewrite returns_getEncryptedAnswer in Hx, Hx'.
    apply Hu'. apply (Hinj u' a x' x p' p h); congruence.
Qed.

(** X9: two [submitAnswer] calls of different senders leave the same state
    in either order. *)
Theorem X9_distinct_senders_commute (s : State) (u v h h' : N)
    (p p' : list Byte.byte) :
  u <> v ->
  exec (exec s (CallSubmitAnswer u h p)) (CallSubmitAnswer v h' p')
  = exec (exec s (CallSubmitAnswer v h' p')) (CallSubmitAnswer u h p).
Proof.
  intros Hne. cbn [Store.exec]. unfold commit.
  rewrite !(submitAnswer_unfold this verify).
  destruct (flag s u) eqn:Hu, (flag s v) eqn:Hv;
    destruct (verify this u h p) as [x|] eqn:Hx;
    destruct (verify this v h' p') as [y|] eqn:Hy;
    cbn [_hasAnswered _userAnswer acl];
    rewrite ?(submitAnswer_unfold this verify);
    cbn [_hasAnswered _userAnswer acl];
    rewrite ?lookup_insert_ne by congruence;
    rewrite ?Hu, ?Hv, ?Hx, ?Hy; try reflexivity.
  cbn [_hasAnswered _userAnswer acl]. f_equal.
  - apply insert_insert_ne. congruence.
  - apply insert_insert_ne. congruence.
  - apply set_eq. intros e. rewrite !elem_of_union. tauto.
Qed.

End StoreFurther.

Lemma X10_submission_not_blockable_witness :
  exists s' : Store.State,
    Store.submitAnswer 7 Store.sampleVerify 2 6 [Byte.x01]
      (Store.execs 7 Store.sampleVerify Store.init
         [Store.CallSubmitAnswer 1 5 [Byte.x01];
          Store.CallSubmitAnswer 2 6 []]) = Store.Ok (tt, s') /\
    Store.hasAnswered 2 s' = Store.Ok (true, s') /\
    Store.getEncryptedAnswer 2 s' = Store.Ok (6%N, s').
Proof.
  apply (X10_submission_not_blockable 7 Store.sampleVerify
           [Store.CallSubmitAnswer 1 5 [Byte.x01];
            Store.CallSubmitAnswer 2 6 []] 2 6 [Byte.x01] 6);
    [|reflexivity].
  simpl. intros [(h & p & E & _)|[(h & p & E & Hr)|[]]].
  - discriminate E.
  - injection E as <- <-. discriminate Hr.
Defined.

Lemma X7_submitter_may_decrypt_witness :
  exists h : N,
    Store.getEncryptedAnswer 1
      (Store.execs 7 Store.sampleVerify Store.init
         [Store.CallSubmitAnswer 1 5 [Byte.x01]])
    = Store.Ok (h, Store.execs 7 Store.sampleVerify Store.init
                     [Store.CallSubmitAnswer 1 5 [Byte.x01]]) /\
    (h, 1%N) ∈ Store.acl (Store.execs 7 Store.sampleVerify Store.init
                            [Store.CallSubmitAnswer 1 5 [Byte.x01]]) /\
    (h, 7%N) ∈ Store.acl (Store.execs 7 Store.sampleVerify Store.init
                            [Store.CallSubmitAnswer 1 5 [Byte.x01]]).
Proof.
  apply (X7_submitter_may_decrypt 7 Store.sampleVerify
           [Store.CallSubmitAnswer 1 5 [Byte.x01]] 1).
  reflexivity.
Defined.

(** The handle [senderVerify] returns tells the sender. *)
Lemma senderVerify_sender_bound (this u u' x x' : N) (p p' : list Byte.byte)
    (v : N) :
  Store.senderVerify this u x p = Some v ->
  Store.senderVerify this u' x' p' = Some v ->
  u = u'.
Proof.
  unfold Store.senderVerify.
  destruct p; [discriminate|]. destruct p'; [discriminate|].
  intros [= <-] [= E].
  assert (H : (x mod 256 < 256)%N) by (apply N.mod_upper_bound; discriminate).
  assert (H' : (x' mod 256 < 256)%N)
    by (apply N.mod_upper_bound; discriminate).
  revert E H H'. generalize (x mod 256)%N (x' mod 256)%N. intros r r' E H H'.
  apply N.mul_cancel_l with (p := 256%N); [discriminate|]. nia.
Qed.

(** Two identities submit the same external handle: with handles that tell
    their sender, neither holds a permission on the other's. *)
Lemma X8_permissions_follow_storage_witness :
  Store.getEncryptedAnswer 2
    (Store.execs 7 Store.senderVerify Store.init
       [Store.CallSubmitAnswer 1 5 [Byte.x01];
        Store.CallSubmitAnswer 2 5 [Byte.x01]])
  <> Store.Ok (517%N,
               Store.execs 7 Store.senderVerify Store.init
                 [Store.CallSubmitAnswer 1 5 [Byte.x01];
                  Store.CallSubmitAnswer 2 5 [Byte.x01]]).
Proof.
  assert (Hin : (517%N, 1%N)
                ∈ Store.acl
                    (Store.execs 7 Store.senderVerify Store.init
                       [Store.CallSubmitAnswer 1 5 [Byte.x01];
                        Store.CallSubmitAnswer 2 5 [Byte.x01]]))
    by (simpl; set_solver).
  assert (H17 : 1%N <> 7%N) by discriminate.
  assert (H21 : 2%N <> 1%N) by discriminate.
  exact (proj2 (proj2
           (X8_permissions_follow_storage 7 Store.senderVerify
              [Store.CallSubmitAnswer 1 5 [Byte.x01];
               Store.CallSubmitAnswer 2 5 [Byte.x01]] 517 1 Hin))
           (senderVerify_sender_bound 7) H17 2%N H21 eq_refl).
Defined.

(** With a library that returns one handle for two senders, each of them
    holds a permission on the handle stored for the other. *)
Example shared_handle_shared_permission :
  (5%N, 2%N)
    ∈ Store.acl
        (Store.execs 7 Store.sampleVerify Store.init
           [Store.CallSubmitAnswer 1 5 [Byte.x01];
            Store.CallSubmitAnswer 2 5 [Byte.x01]]) /\
  Store.returns (Store.getEncryptedAnswer 1)
    (Store.execs 7 Store.sampleVerify Store.init
       [Store.CallSubmitAnswer 1 5 [Byte.x01];
        Store.CallSubmitAnswer 2 5 [Byte.x01]]) = Some 5%N.
Proof. split; [simpl; set_solver|reflexivity]. Qed.

Lemma X9_distinct_senders_commute_witness :
  Store.exec 7 Store.sampleVerify
    (Store.exec 7 Store.sampleVerify Store.init
       (Store.CallSubmitAnswer 1 5 [Byte.x01]))
    (Store.CallSubmitAnswer 2 6 [Byte.x01])
  = Store.exec 7 Store.sampleVerify
      (Store.exec 7 Store.sampleVerify Store.init
         (Store.CallSubmitAnswer 2 6 [Byte.x01]))
      (Store.CallSubmitAnswer 1 5 [Byte.x01]).
Proof.
  apply (X9_distinct_senders_commute 7 Store.sampleVerify Store.init 1 2 5 6
           [Byte.x01] [Byte.x01]).
  discriminate.
Defined.

(** * Further properties of the hook *)

Section HookFurther.

Import Hook.

Variables Enc Params Tx : Type.
Variable w : World Enc Params Tx.

(* Case analysis on the scrutinees of the goal, from the inside out. *)
Ltac innermost x :=
  tryif (match x with context [match _ with _ => _ end] => idtac end)
  then fail else idtac.

Ltac case_split :=
  repeat match goal with
         | |- context [match ?x with _ => _ end] =>
             innermost x; destruct x eqn:?
         end.

Lemma getContract_write :
  getContract w write = Some tt ->
  hasContract w = true /\ ethersSigner w = true.
Proof.
  unfold getContract.
  destruct (hasContract w), (ethersSigner w); simpl; intros H;
    (discriminate H || auto).
Qed.

(** What the events of the [try] block tell about the calls made. *)
Lemma submitAnswer_try_events (text : string) (st : HookState) :
  (forall (m : string) (v : Z),
     In (EvEncrypt m v) (snd (submitAnswer_try w text st)) ->
     Codec.stringToBigInt text = Returns v) /\
  (In EvSend (snd (submitAnswer_try w text st)) ->
   exists (m : string) (v : Z) (enc : Enc),
     Codec.stringToBigInt text = Returns v /\
     encryptWith w m v = Returns (Some enc) /\
     getContract w write = Some tt) /\
  (message (fst (submitAnswer_try w text st))
     <> "✅ Quiz submitted successfully!" ->
   failureReason (message (fst (submitAnswer_try w text st))) ->
   encryptedAnswer (fst (submitAnswer_try w text st)) = encryptedAnswer st).
Proof.
  unfold submitAnswer_try, getEncryptionMethodFor, catch.
  destruct (abi_submitAnswer w) as [internalType|].
  - case_split; cbn [fst snd message encryptedAnswer setMessage
                      setEncryptedAnswer];
      (split; [|split]);
      try (intros m v Hin; apply in_app_or in Hin);
      try (intros Hin; apply in_app_or in Hin);
      cbn [In] in *; intros;
      repeat match goal with
             | H : _ \/ _ |- _ => destruct H
             | H : False |- _ => destruct H
             | H : EvEncode _ = EvEncrypt _ _ |- _ => discriminate H
             | H : EvEncode _ = EvSend |- _ => discriminate H
             | H : EvEncrypt _ _ = EvSend |- _ => discriminate H
             | H : EvWait = EvSend |- _ => discriminate H
             | H : EvRefresh = EvSend |- _ => discriminate H
             | H : EvSend = EvEncrypt _ _ |- _ => discriminate H
             | H : EvWait = EvEncrypt _ _ |- _ => discriminate H
             | H : EvRefresh = EvEncrypt _ _ |- _ => discriminate H
             | H : EvEncrypt _ _ = EvEncrypt _ _ |- _ => injection H as <- <-
             | u : unit |- _ => destruct u
             end;
      try reflexivity; try congruence; eauto 8.
  - cbn. repeat split; intros; try contradiction; reflexivity.
Qed.

(** A [try] block that calls the contract has gone through every step
    before the call, and has made its calls in the order of the code. *)
Lemma submitAnswer_try_send (text : string) (st : HookState) :
  In EvSend (snd (submitAnswer_try w text st)) ->
  exists (m : string) (error : option string) (v : Z) (enc : Enc)
         (params : Params) (rest : list Event),
    getEncryptionMethodFor w = (Some m, error) /\
    truthy m = true /\
    Codec.stringToBigInt text = Returns v /\
    encryptWith w m v = Returns (Some enc) /\
    getContract w write = Some tt /\
    buildParamsFromAbi w enc = Returns params /\
    snd (submitAnswer_try w text st)
    = EvEncode text :: EvEncrypt m v :: EvSend :: rest /\
    (rest = [] \/ rest = [EvWait] \/ rest = [EvWait; EvRefresh]).
Proof.
  unfold submitAnswer_try.
  destruct (getEncryptionMethodFor w) as [[m|] error] eqn:G;
    [|intros []].
  destruct (truthy m) eqn:Tm; cbn [negb]; [|intros []].
  destruct (Codec.stringToBigInt text) as [v|name msg] eqn:Hv.
  2:{ cbn. intros [H|[]]. discriminate H. }
  destruct (encryptWith w m v) as [[enc|]|name msg] eqn:He.
  2,3: cbn; intros [H|[H|[]]]; discriminate H.
  destruct (getContract w write) as [[]|] eqn:Hc.
  2:{ cbn. intros [H|[H|[]]]; discriminate H. }
  destruct (buildParamsFromAbi w enc) as [params|name msg] eqn:Hb.
  2:{ cbn. intros [H|[H|[]]]; discriminate H. }
  intros _. exists m, error, v, enc, params.
  destruct (contract_submitAnswer w params) as [tx|name msg] eqn:Hs.
  2:{ exists []. cbn. auto 10. }
  destruct (tx_wait w tx) as [[]|name msg] eqn:Hw.
  2:{ exists [EvWait]. cbn. auto 10. }
  exists [EvWait; EvRefresh].
  destruct (refreshAnswer w); cbn; auto 10.
Qed.

(** X11: when a call of [submitAnswer] calls the contract, the text is not
    empty, the [isProcessing] its callback closed over is false, there are a
    contract and a signer, and every step before has returned: the method
    [getEncryptionMethodFor] found, the value [stringToBigInt] gave for the
    text, the result [encryptWith] gave for that method and value, and the
    parameters built from it.  The calls are made in the order encode,
    encrypt, send, then wait and read back. *)
Theorem X11_sends_only_after_encryption (text : string) (captured : bool)
    (st : HookState) :
  In EvSend (snd (submitAnswer w captured text st)) ->
  text <> "" /\ captured = false /\
  hasContract w = true /\ ethersSigner w = true /\
  exists (m : string) (error : option string) (v : Z) (enc : Enc)
         (params : Params) (rest : list Event),
    getEncryptionMethodFor w = (Some m, error) /\
    truthy m = true /\
    Codec.stringToBigInt text = Returns v /\
    encryptWith w m v = Returns (Some enc) /\
    buildParamsFromAbi w enc = Returns params /\
    snd (submitAnswer w captured text st)
    = EvEncode text :: EvEncrypt m v :: EvSend :: rest /\
    (rest = [] \/ rest = [EvWait] \/ rest = [EvWait; EvRefresh]).
Proof.
  unfold submitAnswer.
  destruct (negb (truthy text) || captured) eqn:G; [intros []|].
  apply orb_false_elim in G as [G Hp]. apply negb_false_iff in G.
  apply truthy_nonempty in G.
  match goal with
  | |- context [submitAnswer_try w text ?s] =>
      pose proof (submitAnswer_try_send text s) as He;
      destruct (submitAnswer_try w text s) as [st' evs]
  end.
  cbn [fst snd] in *. intros Hin.
  destruct (He Hin)
    as (m & error & v & enc & params & rest & Hm & Tm & Hv & Henc & Hc
        & Hb & Hevs & Hrest).
  apply getContract_write in Hc as [Hc Hs].
  repeat (split; [assumption|]).
  exists m, error, v, enc, params, rest. auto 10.
Qed.

(** X12: a call of [submitAnswer] that does not end with the success text
    leaves the data of the contract read, and with it the [hasAnswered]
    flag, as they were. *)
Theorem X12_failure_keeps_read_data (text : string) (captured : bool)
    (st : HookState) :
  message (fst (submitAnswer w captured text st))
    <> "✅ Quiz submitted successfully!" ->
  encryptedAnswer (fst (submitAnswer w captured text st))
    = encryptedAnswer st /\
  hasAnswered (encryptedAnswer (fst (submitAnswer w captured text st)))
    = hasAnswered (encryptedAnswer st).
Proof.
  intros Hm.
  assert (E : encryptedAnswer (fst (submitAnswer w captured text st))
              = encryptedAnswer st); [|rewrite E; auto].
  revert Hm. unfold submitAnswer.
  destruct (negb (truthy text) || captured) eqn:G; [reflexivity|].
  match goal with
  | |- context [submitAnswer_try w text ?s] =>
      pose proof (submitAnswer_try_events text s) as (_ & _ & He);
      pose proof (submitAnswer_try_state _ _ _ w text s) as [_ Hs];
      destruct (submitAnswer_try w text s) as [st' evs]
  end.
  cbn [fst snd message encryptedAnswer setIsProcessing setMessage] in *.
  intros Hm. destruct Hs as [[Hs _]|Hs]; [contradiction|].
  apply (He Hm Hs).
Qed.

(** X13: the value the hook hands to the encryption call decodes back to the
    text: when the decryption results start with that value, the effect on
    [results] sets [decryptedString] to the text submitted, provided its
    first byte is not zero. *)
Theorem X13_decrypted_text_is_submitted_text (text : string)
    (captured : bool) (st : HookState) (m : string) (v : Z) (handle : string)
    (others : list (string * ClearValue)) (decryptedString : string) :
  In (EvEncrypt m v) (snd (submitAnswer w captured text st)) ->
  Codec.firstByteNonZero text = true ->
  results_effect (Some ((handle, ClearBigInt v) :: others)) decryptedString
    = text.
Proof.
  unfold submitAnswer.
  destruct (negb (truthy text) || captured) eqn:G; [intros []|].
  match goal with
  | |- context [submitAnswer_try w text ?s] =>
      pose proof (submitAnswer_try_events text s) as (He & _ & _);
      destruct (submitAnswer_try w text s) as [st' evs]
  end.
  cbn [fst snd] in *. intros Hin Hb. specialize (He m v Hin).
  apply roundTrip_firstByteNonZero in Hb. unfold Codec.roundTrip in Hb.
  rewrite He in Hb. injection Hb as Hb. exact Hb.
Qed.

End HookFurther.

Lemma X11_sends_only_after_encryption_witness :
  Hook.hasContract Hook.sampleWorld = true /\
  Hook.ethersSigner Hook.sampleWorld = true /\
  exists (m : string) (error : option string) (v : Z) (enc params : unit)
         (rest : list Hook.Event),
    Hook.getEncryptionMethodFor Hook.sampleWorld = (Some m, error) /\
    Hook.truthy m = true /\
    Codec.stringToBigInt "ABC" = Returns v /\
    Hook.encryptWith Hook.sampleWorld m v = Returns (Some enc) /\
    Hook.buildParamsFromAbi Hook.sampleWorld enc = Returns params /\
    snd (Hook.submitAnswer Hook.sampleWorld false "ABC" Hook.initialState)
    = Hook.EvEncode "ABC" :: Hook.EvEncrypt m v :: Hook.EvSend :: rest /\
    (rest = [] \/ rest = [Hook.EvWait]
     \/ rest = [Hook.EvWait; Hook.EvRefresh]).
Proof.
  assert (Hin : In Hook.EvSend
                  (snd (Hook.submitAnswer Hook.sampleWorld false "ABC"
                          Hook.initialState)))
    by (vm_compute; right; right; left; reflexivity).
  exact (proj2 (proj2
           (X11_sends_only_after_encryption unit unit unit Hook.sampleWorld
              "ABC" false Hook.initialState Hin))).
Defined.

Lemma X12_failure_keeps_read_data_witness :
  Hook.message
    (fst (Hook.submitAnswer Hook.failingWorld false "ABC"
            (Hook.mkHookState "old" false (Some (Hook.bytes32ToHex 5)))))
  = "Encryption failed" /\
  Hook.encryptedAnswer
    (fst (Hook.submitAnswer Hook.failingWorld false "ABC"
            (Hook.mkHookState "old" false (Some (Hook.bytes32ToHex 5)))))
  = Some (Hook.bytes32ToHex 5).
Proof.
  split; [reflexivity|].
  apply (X12_failure_keeps_read_data unit unit unit Hook.failingWorld "ABC"
           false (Hook.mkHookState "old" false (Some (Hook.bytes32ToHex 5)))).
  intros H. vm_compute in H. discriminate H.
Defined.

Lemma X13_decrypted_text_is_submitted_text_witness :
  Hook.results_effect (Some [("0x05", Hook.ClearBigInt 4276803)]) "" = "ABC".
Proof.
  apply (X13_decrypted_text_is_submitted_text unit unit unit Hook.sampleWorld
           "ABC" false Hook.initialState "add32" 4276803 "0x05" [] "");
    [vm_compute; right; left; reflexivity|reflexivity].
Defined.

(** * Properties of the quiz component *)

Section QuizProperties.

Import Quiz.

Lemma countLoop_acc (d c : string) (steps i acc : nat) :
  countLoop d c i steps acc = acc + countLoop d c i steps 0.
Proof.
  revert i acc. induction steps as [|k IH]; intros i acc; simpl; [lia|].
  rewrite IH. rewrite (IH _ (if strictEq _ _ then 1 else 0)).
  destruct (strictEq (charAt d i) (charAt c i)); lia.
Qed.

Lemma countLoop_shift (a b : ascii) (d c : string) (steps i acc : nat) :
  countLoop (String a d) (String b c) (S i) steps acc
  = countLoop d c i steps acc.
Proof.
  revert i acc. induction steps as [|k IH]; intros i acc; [reflexivity|].
  cbn [countLoop]. rewrite IH. reflexivity.
Qed.

Lemma charAt_length (c : string) (i : nat) :
  i < String.length c -> exists x, charAt c i = Some x.
Proof.
  revert i. induction c as [|a c IH]; intros i Hi; simpl in Hi; [lia|].
  destruct i as [|i]; [eexists; reflexivity|].
  unfold charAt in *. simpl. apply IH. lia.
Qed.

Lemma countLoop_empty (c : string) (steps i acc : nat) :
  i + steps <= String.length c ->
  countLoop EmptyString c i steps acc = acc.
Proof.
  revert i acc. induction steps as [|k IH]; intros i acc Hlen; [reflexivity|].
  cbn [countLoop]. destruct (charAt_length c i) as [x Hx]; [lia|].
  rewrite Hx. cbn. apply IH. lia.
Qed.

Lemma strictEq_head (a b : ascii) (d c : string) :
  strictEq (charAt (String a d) 0) (charAt (String b c) 0) = Ascii.eqb a b.
Proof.
  cbn. destruct (Ascii.eqb a b); reflexivity.
Qed.

Lemma loopCount_cons (a b : ascii) (d c : string) :
  loopCount (String a d) (String b c)
  = (if Ascii.eqb a b then 1 else 0) + loopCount d c.
Proof.
  unfold loopCount. cbn [String.length countLoop].
  rewrite strictEq_head, countLoop_shift, countLoop_acc.
  destruct (Ascii.eqb a b); reflexivity.
Qed.

Lemma loopCount_prefix (c d : string) :
  loopCount d c <= String.length c /\
  (loopCount d c = String.length c <-> String.prefix c d = true).
Proof.
  revert d. induction c as [|b c IH]; intros d.
  - destruct d; cbn; split; (lia || tauto).
  - destruct d as [|a d].
    + unfold loopCount. rewrite countLoop_empty by lia.
      cbn. split; [lia|]. split; [lia|discriminate].
    + rewrite loopCount_cons. destruct (IH d) as [IH1 IH2].
      cbn [String.length String.prefix].
      destruct (Ascii.eqb_spec a b) as [->|Hne].
      * destruct (ascii_dec b b) as [_|Hn]; [|now elim Hn].
        split; [lia|]. rewrite <- IH2. lia.
      * destruct (ascii_dec b a) as [E|_]; [now elim Hne|].
        split; [lia|]. split; [lia|discriminate].
Qed.

Lemma QuizResult_scored (a : ascii) (d correct : string) :
  QuizResult (Some (String a d)) correct
  = Scored (loopCount (String a d) correct) (String.length correct)
      (Nat.eqb (loopCount (String a d) correct) (String.length correct)).
Proof. reflexivity. Qed.

(** X14: [QuizResult] shows the waiting line, and computes no score, when the
    decrypted text is undefined or empty.  For a non-empty decrypted text it
    shows a score: the number of questions is the length of the correct
    answers, the count never exceeds it, the score is marked perfect exactly
    when the count equals the number of questions, and that is exactly when
    the decrypted text starts with the correct answers.  (Texts of
    single-byte characters: an index counts one character.) *)
Theorem X14_perfect_score_iff_prefix (correct : string) :
  QuizResult None correct = Waiting /\
  QuizResult (Some "") correct = Waiting /\
  forall decrypted : string,
    decrypted <> "" ->
    Codec.singleByteChars decrypted = true ->
    Codec.singleByteChars correct = true ->
    exists (count : nat) (perfect : bool),
      QuizResult (Some decrypted) correct
      = Scored count (String.length correct) perfect /\
      correctCount (Some decrypted) correct = Some count /\
      isPerfect (Some decrypted) correct = Some perfect /\
      count <= String.length correct /\
      (perfect = true <-> count = String.length correct) /\
      (perfect = true <-> String.prefix correct decrypted = true).
Proof.
  split; [reflexivity|]. split; [reflexivity|].
  intros decrypted Hne _ _.
  destruct decrypted as [|a d]; [now elim Hne|].
  destruct (loopCount_prefix correct (String a d)) as [H1 H2].
  exists (loopCount (String a d) correct),
    (Nat.eqb (loopCount (String a d) correct) (String.length correct)).
  unfold correctCount, isPerfect. rewrite QuizResult_scored.
  repeat split; try reflexivity; try exact H1;
    try (apply Nat.eqb_eq); try (intros H; apply Nat.eqb_eq; exact H).
  - intros H. apply H2. apply Nat.eqb_eq. exact H.
  - intros H. apply Nat.eqb_eq. apply H2. exact H.
Qed.

(** X15: from the selections to the result and back.  For three selections
    of one single-byte character each, the first not U+0000: when the
    decryption results start with the value their text was encoded to, the
    decrypted text restores the three selections, and the score is perfect
    exactly when they are B, B and A. *)
Theorem X15_selections_restored_and_scored (c1 c2 c3 : ascii) (v : Z)
    (handle : string) (others : list (string * Hook.ClearValue))
    (decryptedString : string) (old : Answers) :
  let answers := {| q1 := String c1 EmptyString;
                    q2 := String c2 EmptyString;
                    q3 := String c3 EmptyString |} in
  let decrypted :=
    Hook.results_effect (Some ((handle, Hook.ClearBigInt v) :: others))
      decryptedString in
  Codec.singleByteChars (answerString answers) = true ->
  c1 <> "000"%char ->
  Codec.stringToBigInt (answerString answers) = Returns v ->
  allAnswered answers = true /\
  decrypted_effect decrypted old = answers /\
  (isPerfect (Some decrypted) correctAnswers = Some true <->
   answers = {| q1 := "B"; q2 := "B"; q3 := "A" |}).
Proof.
  intros answers decrypted _ Hc1 Hv.
  assert (Ht : answerString answers = String c1 (String c2 (String c3 "")))
    by reflexivity.
  rewrite Ht in *.
  assert (Hd : decrypted = String c1 (String c2 (String c3 ""))).
  { subst decrypted. cbn [Hook.results_effect].
    assert (Hb : Codec.firstByteNonZero (String c1 (String c2 (String c3 "")))
                 = true).
    { unfold Codec.firstByteNonZero, Codec.toUtf8Bytes, list_byte_of_string.
      cbn [list_ascii_of_string map].
      destruct (Byte.eqb (byte_of_ascii c1) Byte.x00) eqn:E;
        [|reflexivity].
      apply Byte.byte_dec_bl in E. exfalso. apply Hc1.
      rewrite <- (ascii_of_byte_of_ascii c1), E. reflexivity. }
    apply roundTrip_firstByteNonZero in Hb. unfold Codec.roundTrip in Hb.
    rewrite Hv in Hb. injection Hb as Hb. exact Hb. }
  rewrite Hd. subst answers. split; [reflexivity|]. split; [reflexivity|].
  unfold isPerfect, correctAnswers. rewrite QuizResult_scored.
  rewrite !loopCount_cons. cbn [String.length].
  destruct (Ascii.eqb_spec c1 "B") as [->|H1],
           (Ascii.eqb_spec c2 "B") as [->|H2],
           (Ascii.eqb_spec c3 "A") as [->|H3];
    cbn; split; intros H; try reflexivity; try discriminate H;
    injection H; congruence.
Qed.

End QuizProperties.

Lemma X14_perfect_score_iff_prefix_witness :
  exists (count : nat) (perfect : bool),
    Quiz.QuizResult (Some "BCA") Quiz.correctAnswers
    = Quiz.Scored count (String.length Quiz.correctAnswers) perfect /\
    Quiz.correctCount (Some "BCA") Quiz.correctAnswers = Some count /\
    Quiz.isPerfect (Some "BCA") Quiz.correctAnswers = Some perfect /\
    count <= String.length Quiz.correctAnswers /\
    (perfect = true <-> count = String.length Quiz.correctAnswers) /\
    (perfect = true <-> String.prefix Quiz.correctAnswers "BCA" = true).
Proof.
  assert (Hne : "BCA" <> "") by discriminate.
  exact (proj2 (proj2 (X14_perfect_score_iff_prefix Quiz.correctAnswers))
           "BCA" Hne eq_refl eq_refl).
Defined.

Lemma X15_selections_restored_and_scored_witness :
  Quiz.decrypted_effect
    (Hook.results_effect (Some [("0x05", Hook.ClearBigInt 4342337)]) "")
    (Quiz.mkAnswers "" "" "")
  = Quiz.mkAnswers "B" "B" "A".
Proof.
  assert (Hne : "B"%char <> "000"%char) by discriminate.
  exact (proj1 (proj2
           (X15_selections_restored_and_scored "B" "B" "A" 4342337 "0x05" []
              "" (Quiz.mkAnswers "" "" "") eq_refl Hne eq_refl))).
Defined.
